(** * Open Sprunk Framework, AgentOps scripts

    A shallow embedding of the two traversal tools under
    [AgentOps/Scripts]:

    - [codebase_to_markdown.py], the Markdown dump, and
    - [tree_gitignore.py], the tree printer,

    followed by the properties of their filtering engine.

    Conventions.  Python [str] values are Rocq [string]s (byte strings;
    the text helpers below are the ASCII fragment of their Python
    namesakes).  A [pathlib.Path] is the list of its segments; an absolute
    path is the list of segments below the filesystem root.  The filesystem
    is an explicit tree, the process's working directory an explicit
    absolute path. *)

From Stdlib Require Import List String Ascii Bool Arith PeanoNat NArith Lia.
From Stdlib Require Import Strings.Byte Permutation Sorted OrderedTypeEx.
Import ListNotations.

Local Open Scope string_scope.
Local Open Scope list_scope.
Local Open Scope bool_scope.
Local Open Scope nat_scope.

#[local] Set Warnings "-register-all".

(* ================================================================== *)
(** * Python text primitives *)
(* ================================================================== *)

Module Py.

(** [c] lies in the closed code-point range [lo .. hi]. *)
Definition in_range (lo hi c : ascii) : bool :=
  (nat_of_ascii lo <=? nat_of_ascii c) && (nat_of_ascii c <=? nat_of_ascii hi).

(** [str.lower] on one ASCII character. *)
Definition lower_char (c : ascii) : ascii :=
  if in_range "A" "Z" c then ascii_of_nat (nat_of_ascii c + 32) else c.

(** [str.lower]. *)
Fixpoint lower (s : string) : string :=
  match s with
  | EmptyString => EmptyString
  | String c s' => String (lower_char c) (lower s')
  end.

(** [str.isspace] on one ASCII character: TAB, LF, VT, FF, CR, the four
    separators 0x1c-0x1f and the space. *)
Definition is_space (c : ascii) : bool :=
  let n := nat_of_ascii c in
  ((9 <=? n) && (n <=? 13)) || ((28 <=? n) && (n <=? 31)) || (n =? 32).

(** Drop the leading characters satisfying [p]. *)
Fixpoint lstrip_with (p : ascii -> bool) (s : string) : string :=
  match s with
  | EmptyString => EmptyString
  | String c s' => if p c then lstrip_with p s' else s
  end.

(** Drop the trailing characters satisfying [p]. *)
Fixpoint rstrip_with (p : ascii -> bool) (s : string) : string :=
  match s with
  | EmptyString => EmptyString
  | String c s' =>
      match rstrip_with p s' with
      | EmptyString => if p c then EmptyString else String c EmptyString
      | r => String c r
      end
  end.

(** [str.strip()]. *)
Definition strip (s : string) : string :=
  rstrip_with is_space (lstrip_with is_space s).

(** [s.rstrip(c)] for a one-character argument. *)
Definition rstrip_char (c : ascii) (s : string) : string :=
  rstrip_with (Ascii.eqb c) s.

(** [s.startswith(p)]. *)
Definition startswith (p s : string) : bool := String.prefix p s.

(** [s.endswith(suf)]. *)
Definition endswith (suf s : string) : bool :=
  let n := String.length s in
  let k := String.length suf in
  (k <=? n) && String.eqb (String.substring (n - k) k s) suf.

(** [s[:-k]]. *)
Definition drop_last (k : nat) (s : string) : string :=
  String.substring 0 (String.length s - k) s.

(** [s[k:]]. *)
Definition drop_first (k : nat) (s : string) : string :=
  String.substring k (String.length s - k) s.

(** [c in s]. *)
Fixpoint contains_char (c : ascii) (s : string) : bool :=
  match s with
  | EmptyString => false
  | String d s' => Ascii.eqb c d || contains_char c s'
  end.

(** [s.replace(a, b)] for one-character [a] and [b]. *)
Fixpoint replace_char (a b : ascii) (s : string) : string :=
  match s with
  | EmptyString => EmptyString
  | String c s' => String (if Ascii.eqb c a then b else c) (replace_char a b s')
  end.

(** [sep.join(parts)]. *)
Fixpoint join (sep : string) (parts : list string) : string :=
  match parts with
  | [] => EmptyString
  | [p] => p
  | p :: ps => (p ++ sep ++ join sep ps)%string
  end.

(** [s.split(c)] for a one-character separator: the pieces between the
    separators, empty pieces included. *)
Fixpoint split_on (c : ascii) (s : string) : list string :=
  match s with
  | EmptyString => [EmptyString]
  | String d s' =>
      match split_on c s' with
      | [] => [EmptyString]
      | p :: ps => if Ascii.eqb d c then EmptyString :: p :: ps
                   else String d p :: ps
      end
  end.

(** The lines of a text file as iteration over the file object yields
    them, every line with its terminating newline (the text is the one
    [open(..., 'r')] delivers, newlines already translated to LF). *)
Fixpoint file_lines (s : string) : list string :=
  match s with
  | EmptyString => []
  | String c s' =>
      if Ascii.eqb c "010" then String c EmptyString :: file_lines s'
      else match file_lines s' with
           | [] => [String c EmptyString]
           | l :: ls => String c l :: ls
           end
  end.

(** Line boundaries of [str.splitlines] in the ASCII range. *)
Definition is_linebreak (c : ascii) : bool :=
  let n := nat_of_ascii c in
  ((10 <=? n) && (n <=? 13)) || ((28 <=? n) && (n <=? 30)).

(** [str.splitlines()]: the lines without their terminators, CR LF
    counted as one boundary, and no empty last line after a final
    terminator. *)
Fixpoint splitlines (s : string) : list string :=
  match s with
  | EmptyString => []
  | String c s' =>
      if is_linebreak c then
        match s' with
        | String d s'' =>
            if Ascii.eqb c "013" && Ascii.eqb d "010"
            then EmptyString :: splitlines s''
            else EmptyString :: splitlines s'
        | EmptyString => [EmptyString]
        end
      else match splitlines s' with
           | [] => [String c EmptyString]
           | l :: ls => String c l :: ls
           end
  end.

End Py.

(* ================================================================== *)
(** * The [fnmatch] library function *)
(* ================================================================== *)

(** [fnmatch.fnmatch(name, pat)] of the Python standard library, on a
    POSIX host (where [os.path.normcase] is the identity): the pattern is
    translated to a sequence of tokens and has to match the whole name.
    [*] matches any run of characters, the path separator included; [?]
    one character; [[seq]] one character of [seq], [[!seq]] one character
    outside it; [a-b] inside brackets is a range; a bracket that is never
    closed is a literal. *)
Module Fnmatch.

Inductive citem : Type :=
| CChar (c : ascii)
| CRange (lo hi : ascii).

Inductive tok : Type :=
| TStar
| TAny
| TClass (neg : bool) (items : list citem)
| TLit (c : ascii).

(** The body of a bracket expression: [x-y] is a range wherever the three
    characters can be read as one, every other character stands for
    itself. *)
Fixpoint class_items (s : string) : list citem :=
  match s with
  | EmptyString => []
  | String a s1 =>
      match s1 with
      | String "-" (String b s2) => CRange a b :: class_items s2
      | _ => CChar a :: class_items s1
      end
  end.

(** The text up to the first closing bracket, with the number of
    characters read, the bracket included. *)
Fixpoint until_close (s : string) : option (string * nat) :=
  match s with
  | EmptyString => None
  | String c s' =>
      if Ascii.eqb c "]" then Some (EmptyString, 1)
      else match until_close s' with
           | Some (b, n) => Some (String c b, S n)
           | None => None
           end
  end.

(** The bracket expression that starts right after an opening bracket:
    negation flag, body and number of characters read.  A closing bracket
    in first position belongs to the body. *)
Definition scan_class (s : string) : option (bool * string * nat) :=
  let '(neg, s1, k) :=
    match s with
    | String "!" r => (true, r, 1)
    | _ => (false, s, 0)
    end in
  match s1 with
  | String "]" r =>
      match until_close r with
      | Some (b, n) => Some (neg, String "]" b, k + 1 + n)
      | None => None
      end
  | _ =>
      match until_close s1 with
      | Some (b, n) => Some (neg, b, k + n)
      | None => None
      end
  end.

(** [fnmatch.translate]; [skip] counts the characters of a bracket
    expression still to be passed over. *)
Fixpoint translate_from (skip : nat) (pat : string) : list tok :=
  match pat with
  | EmptyString => []
  | String c rest =>
      match skip with
      | S k => translate_from k rest
      | O =>
          if Ascii.eqb c "*" then TStar :: translate_from 0 rest
          else if Ascii.eqb c "?" then TAny :: translate_from 0 rest
          else if Ascii.eqb c "[" then
            match scan_class rest with
            | Some (neg, body, n) =>
                TClass neg (class_items body) :: translate_from n rest
            | None => TLit "[" :: translate_from 0 rest
            end
          else TLit c :: translate_from 0 rest
      end
  end.

Definition translate (pat : string) : list tok := translate_from 0 pat.

Definition citem_matches (c : ascii) (i : citem) : bool :=
  match i with
  | CChar a => Ascii.eqb a c
  | CRange lo hi => Py.in_range lo hi c
  end.

(** One character against one token other than the star. *)
Definition tok_matches (t : tok) (c : ascii) : bool :=
  match t with
  | TStar => true
  | TAny => true
  | TClass neg items => xorb neg (existsb (citem_matches c) items)
  | TLit a => Ascii.eqb a c
  end.

(** The tokens against the whole of [s]. *)
Fixpoint match_toks (ts : list tok) (s : string) : bool :=
  match ts with
  | [] => match s with EmptyString => true | _ => false end
  | TStar :: ts' =>
      (fix star (s : string) : bool :=
         match_toks ts' s ||
         match s with
         | EmptyString => false
         | String _ s' => star s'
         end) s
  | t :: ts' =>
      match s with
      | EmptyString => false
      | String c s' => tok_matches t c && match_toks ts' s'
      end
  end.

Definition fnmatch (name pat : string) : bool :=
  match_toks (translate pat) name.

End Fnmatch.

(* ================================================================== *)
(** * Paths and the filesystem *)
(* ================================================================== *)

Module Path.

(** A pure path: whether it starts at the root, and its segments. *)
Record pure_path : Type := mk_path {
  anchored : bool;
  parts : list string
}.

(** [Path(s)]: empty segments and single dots are dropped. *)
Definition of_string (s : string) : pure_path :=
  {| anchored := Py.startswith "/" s;
     parts := filter (fun p => negb (String.eqb p "") && negb (String.eqb p "."))
                     (Py.split_on "/" s) |}.

(** [as_posix()] of a relative path; the empty path prints as a dot. *)
Definition as_posix (ps : list string) : string :=
  match ps with
  | [] => "."
  | _ => Py.join "/" ps
  end.

(** [l] without its prefix [pre], when it has that prefix. *)
Fixpoint strip_prefix (pre l : list string) : option (list string) :=
  match pre, l with
  | [], _ => Some l
  | p :: pre', x :: l' => if String.eqb p x then strip_prefix pre' l' else None
  | _ :: _, [] => None
  end.

(** [self.relative_to(other)] with [other] a relative path: [None] is
    the [ValueError]. *)
Definition relative_to (self : pure_path) (other : list string)
  : option (list string) :=
  if anchored self then None else strip_prefix other (parts self).

(** [p.name], the last segment. *)
Definition name (p : list string) : string := last p "".

(** [p.parent]. *)
Definition parent (p : list string) : list string := removelast p.

(** The part of [s] from its last dot on. *)
Fixpoint from_last_dot (s : string) : option string :=
  match s with
  | EmptyString => None
  | String c s' =>
      match from_last_dot s' with
      | Some r => Some r
      | None => if Ascii.eqb c "." then Some s else None
      end
  end.

(** [p.suffix] of a file name: the last dot and what follows, unless that
    dot is the first or the last character. *)
Definition suffix (nm : string) : string :=
  match nm with
  | EmptyString => ""
  | String _ rest =>
      match from_last_dot rest with
      | Some r => if 1 <? String.length r then r else ""
      | None => ""
      end
  end.

End Path.

Module Fs.

(** What opening and reading a file gives: [raw] in binary mode, [text]
    in text mode with undecodable bytes dropped; [None] is an [OSError]. *)
Record file_data : Type := mk_file {
  raw : option (list byte);
  text : option string
}.

(** A filesystem node; [Locked] is a directory that cannot be listed. *)
Inductive node : Type :=
| File (d : file_data)
| Dir (entries : list (string * node))
| Locked.

Fixpoint find_entry (x : string) (es : list (string * node)) : option node :=
  match es with
  | [] => None
  | (y, n) :: es' => if String.eqb x y then Some n else find_entry x es'
  end.

Fixpoint set_entry (x : string) (n : node) (es : list (string * node))
  : list (string * node) :=
  match es with
  | [] => [(x, n)]
  | (y, m) :: es' =>
      if String.eqb x y then (y, n) :: es' else (y, m) :: set_entry x n es'
  end.

(** The node at an absolute path. *)
Fixpoint lookup (p : list string) (fs : node) : option node :=
  match p with
  | [] => Some fs
  | x :: p' =>
      match fs with
      | Dir es =>
          match find_entry x es with
          | Some c => lookup p' c
          | None => None
          end
      | _ => None
      end
  end.

Definition exists_ (fs : node) (p : list string) : bool :=
  match lookup p fs with Some _ => true | None => false end.

Definition is_dir (fs : node) (p : list string) : bool :=
  match lookup p fs with
  | Some (Dir _) | Some Locked => true
  | _ => false
  end.

Definition is_file (fs : node) (p : list string) : bool :=
  match lookup p fs with
  | Some (File _) => true
  | _ => false
  end.

Definition read_text (fs : node) (p : list string) : option string :=
  match lookup p fs with
  | Some (File d) => text d
  | _ => None
  end.

(** [p.mkdir(parents=True, exist_ok=True)]; [None] when a segment of [p]
    is a file or lies in a directory that cannot be entered. *)
Fixpoint mkdir_p (p : list string) (fs : node) : option node :=
  match p with
  | [] => match fs with File _ => None | _ => Some fs end
  | x :: p' =>
      match fs with
      | Dir es =>
          match find_entry x es with
          | Some c =>
              match mkdir_p p' c with
              | Some c' => Some (Dir (set_entry x c' es))
              | None => None
              end
          | None =>
              match mkdir_p p' (Dir []) with
              | Some c' => Some (Dir (set_entry x c' es))
              | None => None
              end
          end
      | _ => None
      end
  end.

(** The file at [p] created or replaced by [d]; [None] when [p] is a
    directory or its parent is not one. *)
Fixpoint write_file (p : list string) (d : file_data) (fs : node)
  : option node :=
  match p with
  | [] => None
  | x :: p' =>
      match fs with
      | Dir es =>
          match p' with
          | [] =>
              match find_entry x es with
              | Some (File _) | None => Some (Dir (set_entry x (File d) es))
              | Some _ => None
              end
          | _ :: _ =>
              match find_entry x es with
              | Some c =>
                  match write_file p' d c with
                  | Some c' => Some (Dir (set_entry x c' es))
                  | None => None
                  end
              | None => None
              end
          end
      | _ => None
      end
  end.

(** The names [os.walk] and [iterdir] report for a directory. *)
Definition subdirs (es : list (string * node)) : list string :=
  map fst (filter (fun e => match snd e with File _ => false | _ => true end) es).

Definition nondirs (es : list (string * node)) : list (string * file_data) :=
  flat_map (fun e => match snd e with File d => [(fst e, d)] | _ => [] end) es.

End Fs.

(* ================================================================== *)
(** * [codebase_to_markdown.py] *)
(* ================================================================== *)

Module codebase_to_markdown.

Import Fs.

Definition nl : string := String "010" EmptyString.

(** Exceptions that no handler of the script is written for. *)
Inductive exn : Type :=
| ZeroDivisionError.

(** A computation that returns or raises; a raise carries along what had
    been reached when it happened. *)
Inductive result (A : Type) : Type :=
| Ok (a : A)
| Raise (e : exn) (at_ : A).
Arguments Ok {A} a.
Arguments Raise {A} e at_.

Definition BINARY_EXTENSIONS : list string :=
  [ ".jpg"; ".jpeg"; ".png"; ".gif"; ".bmp"; ".svg"; ".ico"; ".webp"; ".tiff"; ".tif";
    ".mp4"; ".avi"; ".mov"; ".wmv"; ".flv"; ".webm"; ".mkv"; ".m4v";
    ".mp3"; ".wav"; ".flac"; ".aac"; ".ogg"; ".wma"; ".m4a";
    ".zip"; ".rar"; ".7z"; ".tar"; ".gz"; ".bz2"; ".xz";
    ".pdf"; ".doc"; ".docx"; ".xls"; ".xlsx"; ".ppt"; ".pptx";
    ".exe"; ".dll"; ".so"; ".dylib"; ".bin"; ".app"; ".deb"; ".rpm"; ".msi";
    ".ttf"; ".otf"; ".woff"; ".woff2"; ".eot";
    ".db"; ".sqlite"; ".sqlite3"; ".mdb";
    ".iso"; ".img"; ".dmg"; ".toast"; ".vcd" ].

(** [x in xs] for strings. *)
Definition mem (x : string) (xs : list string) : bool :=
  existsb (String.eqb x) xs.

(** [text_chars]: [{7,8,9,10,12,13,27} | set(range(0x20, 0x100)) - {0x7f}],
    the difference binding tighter than the union. *)
Definition text_chars (b : byte) : bool :=
  let n := Byte.to_N b in
  existsb (N.eqb n) [7; 8; 9; 10; 12; 13; 27]%N
  || ((32 <=? n)%N && (n <? 256)%N && negb (n =? 127)%N).

(** [chunk.translate(None, text_chars)]: the bytes of [chunk] that are
    not text characters. *)
Definition non_text (chunk : list byte) : list byte :=
  filter (fun b => negb (text_chars b)) chunk.

(** [removed / total > 0.30] in Python: the division raises on a zero
    divisor.  For [removed <= total <= 1024] the correctly rounded
    quotient exceeds the double written [0.30] exactly when
    [10 * removed > 3 * total]: rounding is monotone, a quotient equal to
    3/10 rounds to that very double, and every other quotient is at least
    1/10240 away from 3/10. *)
Definition ratio_exceeds (removed total : nat) : result bool :=
  if total =? 0 then Raise ZeroDivisionError false
  else Ok (3 * total <? 10 * removed).

Definition has_null (chunk : list byte) : bool :=
  existsb (Byte.eqb x00) chunk.

(** [is_binary_file(file_path)], on the name of the file and what reading
    it gives. *)
Definition is_binary_file (name : string) (d : file_data) : result bool :=
  if mem (Py.lower (Path.suffix name)) BINARY_EXTENSIONS then Ok true
  else
    match raw d with
    | None => Ok true
    | Some content =>
        let chunk := firstn 1024 content in
        if has_null chunk then Ok true
        else
          match chunk with
          | [] => Ok false
          | _ :: _ =>
              match ratio_exceeds (List.length (non_text chunk)) (List.length chunk) with
              | Raise e _ => Raise e false
              | Ok true => Ok true
              | Ok false => Ok false
              end
          end
    end.

Definition LANGUAGE_MAP : list (string * string) :=
  [ (".py", "python"); (".js", "javascript"); (".ts", "typescript");
    (".tsx", "typescript"); (".java", "java"); (".cs", "csharp");
    (".fs", "fsharp"); (".vb", "vbnet"); (".go", "go"); (".rs", "rust");
    (".c", "c"); (".cpp", "cpp"); (".h", "cpp"); (".html", "html");
    (".css", "css"); (".scss", "scss"); (".less", "less"); (".xml", "xml");
    (".json", "json"); (".yaml", "yaml"); (".yml", "yaml"); (".sh", "bash");
    (".bash", "bash"); (".zsh", "bash"); (".ps1", "powershell");
    (".psm1", "powershell"); (".psd1", "powershell"); (".rb", "ruby");
    (".php", "php"); (".sql", "sql"); (".md", "markdown"); (".txt", "");
    (".gitignore", "ignore"); (".gitattributes", "ignore");
    ("Dockerfile", "dockerfile") ].

Fixpoint assoc (k : string) (m : list (string * string)) : option string :=
  match m with
  | [] => None
  | (k', v) :: m' => if String.eqb k k' then Some v else assoc k m'
  end.

Definition get_language_hint (name : string) : string :=
  match assoc (Py.lower (Path.suffix name)) LANGUAGE_MAP with
  | Some v => v
  | None =>
      match assoc name LANGUAGE_MAP with
      | Some v => v
      | None => ""
      end
  end.

(** The body of the loop of [parse_gitignore] over the lines of the
    file. *)
Fixpoint parse_lines (lines : list string) (patterns : list string)
  : list string :=
  match lines with
  | [] => patterns
  | line :: rest =>
      let line := Py.strip line in
      if negb (String.eqb line "") && negb (Py.startswith "#" line)
      then parse_lines rest (patterns ++ [line])
      else parse_lines rest patterns
  end.

(** [parse_gitignore] on what reading the file gives. *)
Definition parse_text (content : option string) : list string :=
  match content with
  | None => []
  | Some t => parse_lines (Py.file_lines t) []
  end.

Definition parse_gitignore (fs : node) (gitignore_path : list string)
  : list string :=
  if negb (is_file fs gitignore_path) then []
  else parse_text (read_text fs gitignore_path).

(** The dictionary of [get_gitignore_patterns], in insertion order. *)
Definition patterns_map : Type := list (list string * list string).

Definition path_eqb (p q : list string) : bool :=
  if list_eq_dec string_dec p q then true else false.

Definition has_key (k : list string) (m : patterns_map) : bool :=
  existsb (fun e => path_eqb k (fst e)) m.

(** The loop of [get_gitignore_patterns]: one directory, then its parent,
    up to the root. *)
Fixpoint climb (fs : node) (fuel : nat) (current_dir : list string)
               (all_patterns : patterns_map) : patterns_map :=
  let gitignore_file := current_dir ++ [".gitignore"] in
  let all_patterns :=
    if is_file fs gitignore_file then
      if negb (has_key current_dir all_patterns) then
        match parse_gitignore fs gitignore_file with
        | [] => all_patterns
        | patterns => all_patterns ++ [(current_dir, patterns)]
        end
      else all_patterns
    else all_patterns in
  match current_dir, fuel with
  | [], _ => all_patterns
  | _, O => all_patterns
  | _, S fuel' => climb fs fuel' (Path.parent current_dir) all_patterns
  end.

Definition get_gitignore_patterns (fs : node) (directory : list string)
  : patterns_map :=
  climb fs (List.length directory) directory [].

(** One pattern of one scope against the candidate's path relative to
    that scope. *)
Definition pattern_matches (cwd : list string) (fs : node)
           (relative_to_gitignore_dir pattern : string) : bool :=
  let is_dir_pattern := Py.endswith "/" pattern in
  let match_pattern := Py.rstrip_char "/" pattern in
  let rel_parts := Path.parts (Path.of_string relative_to_gitignore_dir) in
  if Fnmatch.fnmatch relative_to_gitignore_dir match_pattern
     || Fnmatch.fnmatch relative_to_gitignore_dir (match_pattern ++ "/*")
     || existsb (fun part => Fnmatch.fnmatch part match_pattern) rel_parts
  then
    if is_dir_pattern
    then is_dir fs (cwd ++ rel_parts) || mem match_pattern rel_parts
    else true
  else false.

(** The candidate's path relative to a scope, as the script computes it:
    the scope relative to the working directory, then the candidate
    relative to that.  [None] is the [ValueError]. *)
Definition relative_to_scope (cwd : list string) (path_obj : Path.pure_path)
           (gitignore_dir : list string) : option string :=
  match Path.strip_prefix cwd gitignore_dir with
  | None => None
  | Some scope =>
      match Path.relative_to path_obj scope with
      | None => None
      | Some r => Some (Path.as_posix r)
      end
  end.

Definition matches_gitignore (cwd : list string) (fs : node)
           (relative_path_posix : string)
           (gitignore_patterns_map : patterns_map) : bool :=
  let path_obj := Path.of_string relative_path_posix in
  existsb
    (fun scope =>
       match relative_to_scope cwd path_obj (fst scope) with
       | None => false
       | Some rel => existsb (pattern_matches cwd fs rel) (snd scope)
       end)
    gitignore_patterns_map.

(** ** The traversal of [main] *)

Record counters : Type := mk_counters {
  processed_count : nat;
  skipped_excluded_dir : nat;
  skipped_gitignore : nat;
  skipped_read_error : nat;
  skipped_output_file : nat;
  skipped_pattern_exclude : nat
}.

(** The places of the loop where a counter is incremented, named after
    the message each prints in verbose mode. *)
Inductive decision : Type :=
| StandardExcludedDir     (* "Skipping standard excluded directory" *)
| PatternExcludedDir      (* "Skipping excluded pattern directory" *)
| GitignoredDir           (* the directory test of [matches_gitignore] *)
| OutputFileItself        (* "Skipping output file itself" *)
| BinaryFile              (* "Skipping binary file" *)
| StandardExcludedFile    (* "Skipping excluded file (in standard excluded path)" *)
| PatternExcludedFile     (* "Skipping excluded pattern file" *)
| GitignoredFile          (* "Skipping gitignored file" *)
| UnreadableFile          (* "Warning: Could not read file" *)
| Processed.              (* "Processing file", section written *)

(** The counter each of these places increments. *)
Definition bump (r : decision) (c : counters) : counters :=
  match r with
  | StandardExcludedDir | StandardExcludedFile =>
      mk_counters (processed_count c) (S (skipped_excluded_dir c))
                  (skipped_gitignore c) (skipped_read_error c)
                  (skipped_output_file c) (skipped_pattern_exclude c)
  | PatternExcludedDir | PatternExcludedFile =>
      mk_counters (processed_count c) (skipped_excluded_dir c)
                  (skipped_gitignore c) (skipped_read_error c)
                  (skipped_output_file c) (S (skipped_pattern_exclude c))
  | GitignoredDir | GitignoredFile =>
      mk_counters (processed_count c) (skipped_excluded_dir c)
                  (S (skipped_gitignore c)) (skipped_read_error c)
                  (skipped_output_file c) (skipped_pattern_exclude c)
  | OutputFileItself =>
      mk_counters (processed_count c) (skipped_excluded_dir c)
                  (skipped_gitignore c) (skipped_read_error c)
                  (S (skipped_output_file c)) (skipped_pattern_exclude c)
  | BinaryFile | UnreadableFile =>
      mk_counters (processed_count c) (skipped_excluded_dir c)
                  (skipped_gitignore c) (S (skipped_read_error c))
                  (skipped_output_file c) (skipped_pattern_exclude c)
  | Processed =>
      mk_counters (S (processed_count c)) (skipped_excluded_dir c)
                  (skipped_gitignore c) (skipped_read_error c)
                  (skipped_output_file c) (skipped_pattern_exclude c)
  end.

(** The state of the loop: the six counters and the text written to the
    output so far; and, as ghost state, the directories [os.walk] has
    yielded and one entry per counter increment with the relative path
    it was made for. *)
Record state : Type := mk_state {
  counts : counters;
  md_file : string;
  visited : list (list string);
  trace : list (decision * list string)
}.

Definition note (r : decision) (p : list string) (st : state) : state :=
  mk_state (bump r (counts st)) (md_file st) (visited st) (trace st ++ [(r, p)]).

Definition write (s : string) (st : state) : state :=
  mk_state (counts st) (md_file st ++ s) (visited st) (trace st).

Definition visit (p : list string) (st : state) : state :=
  mk_state (counts st) (md_file st) (visited st ++ [p]) (trace st).

Definition init_state : state :=
  mk_state (mk_counters 0 0 0 0 0 0) "" [] [].

(** The parsed command line, the two paths resolved. *)
Record args : Type := mk_args {
  source_dir : list string;
  output_file : list string;
  exclude_dirs : list string;
  exclude_patterns : list string;
  force : bool
}.

(** [p.as_posix().replace('\\', '/')] *)
Definition posix (p : list string) : string :=
  Py.replace_char "\" "/" (Path.as_posix p).

(** The pattern as tested against a directory: a trailing [/*] or [/]
    removed. *)
Definition pattern_to_test_against_dir (current_pattern_original : string)
  : string :=
  if Py.endswith "/*" current_pattern_original
  then Py.drop_last 2 current_pattern_original
  else if Py.endswith "/" current_pattern_original
  then Py.drop_last 1 current_pattern_original
  else current_pattern_original.

(** [current_match_result] for one exclude pattern and one directory. *)
Definition dir_match_result (dir_rel_path_posix pattern : string) : bool :=
  let pattern_to_test := pattern_to_test_against_dir pattern in
  let current_match_result :=
    Fnmatch.fnmatch dir_rel_path_posix pattern_to_test in
  if negb current_match_result
     && Py.startswith "**/" pattern_to_test
     && negb (Py.contains_char "/" dir_rel_path_posix)
  then
    let simplified_target_pattern := Py.drop_first 3 pattern_to_test in
    if Fnmatch.fnmatch dir_rel_path_posix simplified_target_pattern
    then true else current_match_result
  else current_match_result.

(** The first exclude pattern a directory matches
    ([offending_pattern_for_log]). *)
Definition dir_exclude_pattern (patterns : list string)
           (dir_rel_path_posix : string) : option string :=
  find (dir_match_result dir_rel_path_posix) patterns.

(** The first exclude pattern a file matches. *)
Definition file_exclude_pattern (patterns : list string)
           (relative_path_posix : string) : option string :=
  find (fun current_pattern => Fnmatch.fnmatch relative_path_posix current_pattern)
       patterns.

Section Traversal.

Variable a : args.
Variable cwd : list string.
Variable fs : node.
Variable gitignore_map : patterns_map.

Definition std_excluded (d : string) : bool :=
  mem d (exclude_dirs a) || Py.startswith "." d.

(** The loop over the directories that are left after the standard
    exclusion: the sets of names to remove by pattern and by ignore
    rule, and the state. *)
Fixpoint filter_dirs (relative_dir_path : list string) (dirs : list string)
         (dirs_to_remove_pattern dirs_to_remove_gitignore : list string)
         (st : state) : list string * list string * state :=
  match dirs with
  | [] => (dirs_to_remove_pattern, dirs_to_remove_gitignore, st)
  | d :: rest =>
      let dir_rel_path := relative_dir_path ++ [d] in
      let dir_rel_path_posix := posix dir_rel_path in
      match dir_exclude_pattern (exclude_patterns a) dir_rel_path_posix with
      | Some _ =>
          filter_dirs relative_dir_path rest
            (d :: dirs_to_remove_pattern) dirs_to_remove_gitignore
            (note PatternExcludedDir dir_rel_path st)
      | None =>
          if matches_gitignore cwd fs dir_rel_path_posix gitignore_map
          then filter_dirs relative_dir_path rest
                 dirs_to_remove_pattern (d :: dirs_to_remove_gitignore)
                 (note GitignoredDir dir_rel_path st)
          else filter_dirs relative_dir_path rest
                 dirs_to_remove_pattern dirs_to_remove_gitignore st
      end
  end.

(** The directory exclusion at one directory of the walk: the names
    left in [dirs] for [os.walk] to descend into, and the state. *)
Definition prune_dirs (relative_dir_path : list string)
           (dirs : list string) (st : state) : list string * state :=
  let dirs_to_remove_std_exclude :=
    nodup string_dec (filter std_excluded dirs) in
  let dirs := filter (fun d => negb (mem d dirs_to_remove_std_exclude)) dirs in
  let '(dirs_to_remove_pattern, dirs_to_remove_gitignore, st) :=
    filter_dirs relative_dir_path dirs [] [] st in
  let st :=
    fold_left (fun st skipped_dir =>
                 note StandardExcludedDir (relative_dir_path ++ [skipped_dir]) st)
              dirs_to_remove_std_exclude st in
  (filter (fun d => negb (mem d dirs_to_remove_gitignore)
                    && negb (mem d dirs_to_remove_pattern)) dirs,
   st).

(** The section written for an accepted file. *)
Definition section (relative_path_posix lang_hint content : string)
  : string :=
  ("## " ++ relative_path_posix ++ nl ++ nl
   ++ "```" ++ lang_hint ++ nl
   ++ content
   ++ nl ++ "```" ++ nl ++ nl)%string.

(** The body of the loop over the files of one directory. *)
Definition process_file (relative_dir_path : list string)
           (f : string * file_data) (st : state) : result state :=
  let '(filename, d) := f in
  let relative_path := relative_dir_path ++ [filename] in
  let relative_path_posix := posix relative_path in
  if path_eqb (source_dir a ++ relative_path) (output_file a)
  then Ok (note OutputFileItself relative_path st)
  else
    match is_binary_file filename d with
    | Raise e _ => Raise e st
    | Ok true => Ok (note BinaryFile relative_path st)
    | Ok false =>
        if existsb (fun part => mem part (exclude_dirs a)) relative_path
        then Ok (note StandardExcludedFile relative_path st)
        else
          match file_exclude_pattern (exclude_patterns a) relative_path_posix with
          | Some _ => Ok (note PatternExcludedFile relative_path st)
          | None =>
              if matches_gitignore cwd fs relative_path_posix gitignore_map
              then Ok (note GitignoredFile relative_path st)
              else
                match text d with
                | Some content =>
                    Ok (note Processed relative_path
                          (write (section relative_path_posix
                                    (get_language_hint filename) content) st))
                | None => Ok (note UnreadableFile relative_path st)
                end
          end
    end.

Fixpoint process_files (relative_dir_path : list string)
         (files : list (string * file_data)) (st : state) : result state :=
  match files with
  | [] => Ok st
  | f :: rest =>
      match process_file relative_dir_path f st with
      | Ok st' => process_files relative_dir_path rest st'
      | Raise e st' => Raise e st'
      end
  end.

(** The descent of [os.walk] from one directory: every subdirectory
    whose name is still in [dirs] is walked, in listing order. *)
Section Descent.

Variable go : node -> list string -> state -> result state.
Variable dirs : list string.
Variable relative_dir_path : list string.

Fixpoint descend (es : list (string * node)) (st : state)
  : result state :=
  match es with
  | [] => Ok st
  | (d, child) :: rest =>
      match child with
      | File _ => descend rest st
      | _ =>
          if mem d dirs then
            match go child (relative_dir_path ++ [d]) st with
            | Ok st' => descend rest st'
            | Raise e st' => Raise e st'
            end
          else descend rest st
      end
  end.

End Descent.

(** [os.walk(..., topdown=True)] with the body of the loop of [main]
    run at every directory it yields: the directory is pruned, its
    files are processed, and the walk goes down into the
    subdirectories left in [dirs].  A directory that cannot be listed
    yields nothing. *)
Fixpoint walk (n : node) (relative_dir_path : list string) (st : state)
  : result state :=
  match n with
  | Dir es =>
      let st := visit relative_dir_path st in
      let '(dirs, st) := prune_dirs relative_dir_path (subdirs es) st in
      match process_files relative_dir_path (nondirs es) st with
      | Raise e st' => Raise e st'
      | Ok st' => descend walk dirs relative_dir_path es st'
      end
  | _ => Ok st
  end.

End Traversal.

(** How a run of [main] ends. *)
Inductive exit : Type :=
| SourceNotFound            (* "Error: Source directory ... not found" *)
| OutputExists              (* "Error: Output file ... already exists" *)
| MkdirFailed               (* [mkdir] raises, nothing catches it *)
| WriteFailed (e : option exn)  (* "Error writing to output file" *)
| Finished.                 (* the summary is printed *)

Definition written (content : string) : file_data :=
  mk_file (Some (list_byte_of_string content)) (Some content).

Definition header (a : args) (cwd : list string) : string :=
  ("# Code Dump: " ++ Path.name (source_dir a) ++ nl ++ nl
   ++ "*Generated on: " ++ Path.name cwd ++ "*" ++ nl ++ nl)%string.

(** [main()]: the filesystem it leaves, how it ends, and the state of
    its loop (the initial one when the loop is never entered). *)
Definition main (a : args) (cwd : list string) (fs : node)
  : node * exit * state :=
  if negb (is_dir fs (source_dir a)) then (fs, SourceNotFound, init_state)
  else if exists_ fs (output_file a) && negb (force a)
  then (fs, OutputExists, init_state)
  else
    match mkdir_p (Path.parent (output_file a)) fs with
    | None => (fs, MkdirFailed, init_state)
    | Some fs =>
        let gitignore_map := get_gitignore_patterns fs (source_dir a) in
        match write_file (output_file a) (written "") fs with
        | None => (fs, WriteFailed None, init_state)
        | Some fs =>
            let st := write (header a cwd) init_state in
            let top :=
              match lookup (source_dir a) fs with
              | Some n => n
              | None => Locked
              end in
            let '(r, st) :=
              match walk a cwd fs gitignore_map top [] st with
              | Ok st => (Finished, st)
              | Raise e st => (WriteFailed (Some e), st)
              end in
            match write_file (output_file a) (written (md_file st)) fs with
            | Some fs' => (fs', r, st)
            | None => (fs, r, st)
            end
        end
    end.

End codebase_to_markdown.

(* ================================================================== *)
(** * [tree_gitignore.py] *)
(* ================================================================== *)

Module tree_gitignore.

Import Fs.

(** The loop of [find_gitignore]: the ignore file of the nearest
    directory that has one, from [current_path] up to the root. *)
Fixpoint find_from (fs : node) (fuel : nat) (current_path : list string)
  : option (list string) :=
  let gitignore_path := current_path ++ [".gitignore"] in
  if is_file fs gitignore_path then Some gitignore_path
  else
    match current_path, fuel with
    | [], _ => None
    | _, O => None
    | _, S fuel' => find_from fs fuel' (Path.parent current_path)
    end.

Definition find_gitignore (fs : node) (start_path : list string)
  : option (list string) :=
  find_from fs (List.length start_path) start_path.

(** The comprehension of [load_gitignore_patterns]. *)
Definition load_lines (content : string) : list string :=
  filter (fun line => negb (String.eqb line "")
                      && negb (Py.startswith "#" (Py.strip line)))
         (Py.splitlines content).

(** [load_gitignore_patterns(gitignore_path)]; the outer [None] is the
    exception of an [open] that fails. *)
Definition load_gitignore_patterns (fs : node)
           (gitignore_path : option (list string)) : option (list string) :=
  match gitignore_path with
  | None => Some []
  | Some p =>
      match read_text fs p with
      | Some content => Some (load_lines content)
      | None => None
      end
  end.

(** What [build_tree] meets at a path: the answers of [is_file()] and
    [is_dir()] and, for a directory, what listing it gives. *)
Inductive entry : Type :=
| Regular     (* a regular file: [is_file()] *)
| Special     (* a broken symlink, a FIFO, a socket: neither [is_file()]
                 nor [is_dir()] *)
| Listing (entries : list (string * entry))
              (* a directory, with what [iterdir()] yields, in its order *)
| Denied      (* a directory whose listing raises [PermissionError] *)
| Missing.    (* a directory that is gone when it is listed:
                 [FileNotFoundError] *)

(** The tree of a filesystem node. *)
Fixpoint of_node (n : node) : entry :=
  match n with
  | File _ => Regular
  | Dir es =>
      Listing ((fix each (es : list (string * node)) : list (string * entry) :=
                  match es with
                  | [] => []
                  | (nm, c) :: es' => (nm, of_node c) :: each es'
                  end) es)
  | Locked => Denied
  end.

Definition entry_is_file (n : entry) : bool :=
  match n with Regular => true | _ => false end.

Definition entry_is_dir (n : entry) : bool :=
  match n with Regular | Special => false | _ => true end.

(** [str(p)] of an absolute path. *)
Definition str (p : list string) : string :=
  ("/" ++ Py.join "/" p)%string.

(** An entry of a directory as [build_tree] handles it: its name, its
    kind, and what the recursive call on it prints. *)
Record item : Type := mk_item {
  item_name : string;
  is_file_ : bool;
  is_dir_ : bool;
  subtree : list string -> string -> list string
}.

(** The sort key [(x.is_file(), x.name.lower())]. *)
Definition key (x : item) : bool * string :=
  (is_file_ x, Py.lower (item_name x)).

(** Python's order on such tuples: [False] before [True], then the
    strings by code point. *)
Definition key_leb (k1 k2 : bool * string) : bool :=
  match fst k1, fst k2 with
  | false, true => true
  | true, false => false
  | _, _ => String.leb (snd k1) (snd k2)
  end.

(** [sorted(..., key=...)], a stable sort: an entry goes before the
    first entry whose key is not smaller than its own. *)
Fixpoint insert (x : item) (l : list item) : list item :=
  match l with
  | [] => [x]
  | y :: l' =>
      if key_leb (key x) (key y) then x :: l else y :: insert x l'
  end.

Definition sorted (l : list item) : list item :=
  fold_right insert [] l.

(** [['├── ' for _ in range(n - 1)] + ['└── ']] *)
Definition pointers (n : nat) : list string :=
  repeat "├── " (n - 1) ++ ["└── "].

Section Tree.

(** [spec.match_file] of the [pathspec] library. *)
Variable match_file : string -> bool.

(** The directory of the ignore file, to which the paths handed to
    [match_file] are relative. *)
Variable gitignore_root : list string.

(** [filtered_items_abs] at the directory [rel] (relative to
    [gitignore_root]): the entries in display order, the ignored ones
    left out. *)
Definition filtered_items (rel : list string) (items : list item)
  : list item :=
  filter (fun x => negb (match_file (Path.as_posix (rel ++ [item_name x]))))
         (sorted items).

(** What the loop body prints for one entry. *)
Definition print_item (rel : list string) (prefix : string)
           (px : string * item) : list string :=
  let '(pointer, x) := px in
  (prefix ++ pointer ++ item_name x ++ (if is_dir_ x then "/" else ""))%string
  :: (if is_dir_ x then
        let extension := if String.eqb pointer "├── " then "│   " else "    " in
        subtree x (rel ++ [item_name x]) (prefix ++ extension)%string
      else []).

Definition print_level (rel : list string) (prefix : string)
           (items : list item) : list string :=
  let filtered := filtered_items rel items in
  flat_map (print_item rel prefix)
           (combine (pointers (List.length filtered)) filtered).

(** [build_tree(directory, spec, gitignore_root, prefix)], the lines it
    prints, for the directory [n] named [name] at [rel] below
    [gitignore_root].  The recursive calls are attached to the entries
    before these are sorted and filtered. *)
Fixpoint build_tree (name : string) (n : entry) (rel : list string)
         (prefix : string) : list string :=
  match n with
  | Denied => [(prefix ++ "└── [ACCESS DENIED] " ++ name ++ "/")%string]
  | Missing =>
      [("Error: Directory not found: " ++ str (gitignore_root ++ rel))%string]
  | Regular | Special => []
  | Listing es =>
      print_level rel prefix
        ((fix items (es : list (string * entry)) : list item :=
            match es with
            | [] => []
            | (nm, c) :: es' =>
                mk_item nm (entry_is_file c) (entry_is_dir c) (build_tree nm c)
                :: items es'
            end) es)
  end.

(** The entries of a directory with the recursive calls attached. *)
Definition items_of (es : list (string * entry)) : list item :=
  map (fun e => mk_item (fst e) (entry_is_file (snd e)) (entry_is_dir (snd e))
                        (build_tree (fst e) (snd e))) es.

End Tree.

End tree_gitignore.

(* ================================================================== *)
(** * Vocabulary of the properties *)
(* ================================================================== *)

Import Fs.
Import codebase_to_markdown.

(** ** Binary detection *)

(** The allowed set as the specification lists it: tab, newline, carriage
    return, form feed, escape, and 0x20-0xFF without the delete character. *)
Definition spec_allowed (b : byte) : bool :=
  let n := Byte.to_N b in
  existsb (N.eqb n) [9; 10; 13; 12; 27]%N
  || ((32 <=? n)%N && (n <=? 255)%N && negb (n =? 127)%N).

(** The content verdict over a given allowed set: a null byte, or more
    than 30% of the sample outside the set. *)
Definition content_verdict (allowed : byte -> bool) (chunk : list byte) : bool :=
  has_null chunk
  || (3 * List.length chunk <? 10 * List.length (filter (fun b => negb (allowed b)) chunk)).

(** The set the code allows: the listed one, and the bell and backspace
    characters. *)
Definition allowed_with_bell_and_backspace (b : byte) : bool :=
  spec_allowed b || existsb (N.eqb (Byte.to_N b)) [7; 8]%N.

Definition not_denylisted (name : string) : Prop :=
  mem (Py.lower (Path.suffix name)) BINARY_EXTENSIONS = false.

(** The content rule with exactly the listed allowed set. *)
Definition content_rule_as_specified : Prop :=
  forall name d content,
    not_denylisted name ->
    raw d = Some content ->
    (is_binary_file name d = Ok true
     <-> content_verdict spec_allowed (firstn 1024 content) = true).

(** ** Ignore files *)

Definition is_blank (line : string) : bool := String.eqb (Py.strip line) "".

(** First character other than whitespace is a hash. *)
Definition is_comment (line : string) : bool :=
  Py.startswith "#" (Py.strip line).

Definition is_rule (line : string) : bool :=
  negb (is_blank line) && negb (is_comment line).

(** Neither tool keeps a blank line or a comment line. *)
Definition rule_sets_as_specified : Prop :=
  forall content,
    Forall (fun p => is_rule p = true) (parse_text (Some content))
    /\ Forall (fun p => is_rule p = true) (tree_gitignore.load_lines content).

(** ** Counters *)

(** Only a file that cannot be read raises the read-error counter. *)
Definition read_error_counter_as_specified : Prop :=
  forall a cwd fs gitignore_map rel name d st st',
    process_file a cwd fs gitignore_map rel (name, d) st = Ok st' ->
    skipped_read_error (counts st') = S (skipped_read_error (counts st)) ->
    raw d = None \/ text d = None.

(** The sum of the six counters. *)
Definition total (c : counters) : nat :=
  processed_count c + skipped_excluded_dir c + skipped_gitignore c
  + skipped_read_error c + skipped_output_file c + skipped_pattern_exclude c.

(** From [c] to [c'] exactly one of the six counters has gone up, by one:
    none has gone down, and their sum is one higher. *)
Definition one_counter_up (c c' : counters) : Prop :=
  total c' = S (total c)
  /\ processed_count c <= processed_count c'
  /\ skipped_excluded_dir c <= skipped_excluded_dir c'
  /\ skipped_gitignore c <= skipped_gitignore c'
  /\ skipped_read_error c <= skipped_read_error c'
  /\ skipped_output_file c <= skipped_output_file c'
  /\ skipped_pattern_exclude c <= skipped_pattern_exclude c'.

(** The counters after the decisions [ds], in order. *)
Definition bump_all (ds : list decision) (c : counters) : counters :=
  fold_left (fun c r => bump r c) ds c.

(** From [st] to [st'] the loop has taken the decisions [delta], each
    counted once, and visited the directories [vis]. *)
Definition advances (st st' : state) (delta : list (decision * list string))
           (vis : list (list string)) : Prop :=
  trace st' = trace st ++ delta
  /\ visited st' = visited st ++ vis
  /\ counts st' = bump_all (map fst delta) (counts st).

(** The state after the decisions [delta] have been noted, one by one. *)
Definition record_all (delta : list (decision * list string)) (st : state)
  : state :=
  mk_state (bump_all (map fst delta) (counts st)) (md_file st) (visited st)
           (trace st ++ delta).

(** The entries of a trace made for the path [p]. *)
Definition entries_at (p : list string) (delta : list (decision * list string))
  : list (decision * list string) :=
  filter (fun e => path_eqb (snd e) p) delta.

(** ** Directory pruning *)





(** The two later tests of a subdirectory [d] of the directory [rel]:
    the exclude patterns, then the ignore rules. *)
Definition late_stage (a : args) (cwd : list string) (fs : node)
           (gitignore_map : patterns_map) (rel : list string) (d : string)
  : option decision :=
  match dir_exclude_pattern (exclude_patterns a) (posix (rel ++ [d])) with
  | Some _ => Some PatternExcludedDir
  | None =>
      if matches_gitignore cwd fs (posix (rel ++ [d])) gitignore_map
      then Some GitignoredDir
      else None
  end.

(** The three tests in the order of the specification, the first one that
    matches deciding: the name (in the literal-exclude set, or with a
    leading dot), then the exclude patterns, then the ignore rules. *)
Definition dir_stage (a : args) (cwd : list string) (fs : node)
           (gitignore_map : patterns_map) (rel : list string) (d : string)
  : option decision :=
  if std_excluded a d then Some StandardExcludedDir
  else late_stage a cwd fs gitignore_map rel d.

Definition kept (stage : option decision) : bool :=
  match stage with None => true | Some _ => false end.

Definition late_entry (a : args) (cwd : list string) (fs : node)
           (gitignore_map : patterns_map) (rel : list string) (d : string)
  : list (decision * list string) :=
  match late_stage a cwd fs gitignore_map rel d with
  | Some r => [(r, rel ++ [d])]
  | None => []
  end.

Definition by_pattern (a : args) (cwd : list string) (fs : node)
           (gitignore_map : patterns_map) (rel : list string) (d : string) : bool :=
  match late_stage a cwd fs gitignore_map rel d with
  | Some PatternExcludedDir => true
  | _ => false
  end.

Definition by_gitignore (a : args) (cwd : list string) (fs : node)
           (gitignore_map : patterns_map) (rel : list string) (d : string) : bool :=
  match late_stage a cwd fs gitignore_map rel d with
  | Some GitignoredDir => true
  | _ => false
  end.

(** The entries of one pruning, in the order the loop makes them: those of
    the pattern and ignore-rule tests in listing order, then those of the
    name test, one for each name in the set. *)
Definition pruning_entries (a : args) (cwd : list string) (fs : node)
           (gitignore_map : patterns_map) (rel : list string)
           (dirs : list string) : list (decision * list string) :=
  flat_map (late_entry a cwd fs gitignore_map rel)
           (filter (fun d => negb (std_excluded a d)) dirs)
  ++ map (fun d => (StandardExcludedDir, rel ++ [d]))
         (nodup string_dec (filter (std_excluded a) dirs)).

(** The trace entry a subdirectory gets: one if it is removed, none if it
    is kept. *)
Definition entry_of (a : args) (cwd : list string) (fs : node)
           (gitignore_map : patterns_map) (rel : list string) (d : string)
  : list (decision * list string) :=
  match dir_stage a cwd fs gitignore_map rel d with
  | Some r => [(r, rel ++ [d])]
  | None => []
  end.

(** [p] lies below [q], or is [q]. *)
Definition below (q p : list string) : Prop := exists s, p = q ++ s.

(** [p] lies strictly below [q]. *)
Definition strictly_below (q p : list string) : Prop :=
  exists x s, p = q ++ x :: s.

(** The names of a list are pairwise different. *)
Fixpoint distinct (l : list string) : bool :=
  match l with
  | [] => true
  | x :: l' => negb (mem x l') && distinct l'
  end.

(** Every level of the tree lists each name once. *)
Fixpoint well_formed (n : node) : Prop :=
  match n with
  | Dir es =>
      NoDup (map fst es)
      /\ (fix all (es : list (string * node)) : Prop :=
            match es with
            | [] => True
            | e :: es' => well_formed (snd e) /\ all es'
            end) es
  | _ => True
  end.

(** [well_formed] as a test. *)
Fixpoint well_formedb (n : node) : bool :=
  match n with
  | Dir es =>
      distinct (map fst es)
      && (fix all (es : list (string * node)) : bool :=
            match es with
            | [] => true
            | e :: es' => well_formedb (snd e) && all es'
            end) es
  | _ => true
  end.

(** No directory on the way from [rel] down to [rel ++ s] is pruned. *)
Definition reached (a : args) (cwd : list string) (fs : node)
           (gitignore_map : patterns_map) (rel s : list string) : Prop :=
  forall s1 d s2, s = s1 ++ d :: s2 ->
    dir_stage a cwd fs gitignore_map (rel ++ s1) d = None.

(** A trace entry made at or below the directory [rel] for something
    whose directory the walk came down to. *)
Definition entry_ok (a : args) (cwd : list string) (fs : node)
           (gitignore_map : patterns_map) (rel : list string)
           (e : decision * list string) : Prop :=
  exists s x, snd e = rel ++ s ++ [x] /\ reached a cwd fs gitignore_map rel s.

(** A directory at or below [rel] that the walk came down to. *)
Definition visit_ok (a : args) (cwd : list string) (fs : node)
           (gitignore_map : patterns_map) (rel : list string)
           (p : list string) : Prop :=
  exists s, p = rel ++ s /\ reached a cwd fs gitignore_map rel s.

(** What a walk from the node [n] does, wherever [n] lies and whatever
    state it starts in: it returns; its trace entries and its visits are
    for paths the walk came down to; and in a well-formed tree every
    subdirectory that is removed where the walk came down to has exactly
    one entry, that of the stage that removed it. *)
Definition walk_summary (a : args) (cwd : list string) (fs : node)
           (gitignore_map : patterns_map) (n : node) : Prop :=
  forall rel st,
  exists st' delta vis,
    walk a cwd fs gitignore_map n rel st = Ok st'
    /\ advances st st' delta vis
    /\ (forall e, In e delta -> entry_ok a cwd fs gitignore_map rel e)
    /\ (forall p, In p vis -> visit_ok a cwd fs gitignore_map rel p)
    /\ (well_formed n ->
        forall q es d r,
          lookup q n = Some (Dir es) ->
          reached a cwd fs gitignore_map rel q ->
          In d (subdirs es) ->
          dir_stage a cwd fs gitignore_map (rel ++ q) d = Some r ->
          entries_at (rel ++ q ++ [d]) delta = [(r, rel ++ q ++ [d])]).

(** ** Display order of the tree printer *)

(** The order of the sort keys. *)
Definition key_le (x y : tree_gitignore.item) : Prop :=
  tree_gitignore.key_leb (tree_gitignore.key x) (tree_gitignore.key y) = true.





(** ** Examples *)

Definition text_file (s : string) : node :=
  File (mk_file (Some (list_byte_of_string s)) (Some s)).

(** A project [/w/proj] with an ignore file, a script, a log, a top-level
    file that a recursive pattern names, a picture, a build directory and
    a dependency directory; next to it the dump of an earlier run. *)
Definition demo_entries : list (string * node) :=
  [ (".gitignore", text_file ("*.log" ++ nl));
    ("a.py", text_file "print(1)");
    ("b.log", text_file "boom");
    ("notes.txt", text_file "todo");
    ("logo.png", text_file "PNG");
    ("build", Dir [("out.txt", text_file "o")]);
    ("node_modules", Dir [("m.js", text_file "m")]);
    ("src", Dir [("main.c", text_file "int")]) ].

Definition demo_fs : node :=
  Dir [("w", Dir [("proj", Dir demo_entries);
                  ("dump.md", text_file "old dump")])].

Definition demo_args (force : bool) : args :=
  mk_args ["w"; "proj"] ["w"; "dump.md"] [".git"; "node_modules"]
          ["**/build/*"; "**/notes.txt"] force.

Definition demo_map : patterns_map :=
  get_gitignore_patterns demo_fs ["w"; "proj"].

(** ** Names, extensions and patterns *)

(** A dot followed by at least one character, none of them a dot: the
    shape of a file extension. *)
Definition dotted (ext : string) : bool :=
  match ext with
  | String "." e => negb (String.eqb e "") && negb (Py.contains_char "." e)
  | _ => false
  end.

(** No character of [s] is special in a glob pattern. *)
Fixpoint literal (s : string) : bool :=
  match s with
  | EmptyString => true
  | String c s' =>
      negb (Ascii.eqb c "*") && negb (Ascii.eqb c "?") && negb (Ascii.eqb c "[")
      && literal s'
  end.

(** A name a directory entry can have, as [pathlib] keeps it: not empty,
    not a single dot, no separator. *)
Definition segment_ok (s : string) : bool :=
  negb (String.eqb s "") && negb (String.eqb s ".")
  && negb (Py.contains_char "/" s).

(** ** Writing an ignore file *)

(** The text of a file with the given lines, each ended by a newline. *)
Fixpoint unlines (ls : list string) : string :=
  match ls with
  | [] => EmptyString
  | l :: ls' => (l ++ nl ++ unlines ls')%string
  end.

(** A line that is a rule as it stands for the Markdown dump: neither
    blank nor a comment, no whitespace around it, no newline in it. *)
Definition plain_rule (p : string) : bool :=
  is_rule p && String.eqb (Py.strip p) p && negb (Py.contains_char "010" p).

Fixpoint no_linebreak (s : string) : bool :=
  match s with
  | EmptyString => true
  | String c s' => negb (Py.is_linebreak c) && no_linebreak s'
  end.

(** A line that is a rule as it stands for the tree printer: not empty,
    not a comment, no line boundary in it. *)
Definition plain_line (p : string) : bool :=
  negb (String.eqb p "") && negb (is_comment p) && no_linebreak p.

(** ** Scopes *)

(** The directory [p] and the directories above it, nearest first. *)
Definition ancestors (p : list string) : list (list string) :=
  map (fun k => firstn k p) (rev (seq 0 (S (List.length p)))).

(** What the ignore file of the directory [d] adds to the map. *)
Definition scope_entry (fs : node) (d : list string) : patterns_map :=
  if is_file fs (d ++ [".gitignore"]) then
    match parse_gitignore fs (d ++ [".gitignore"]) with
    | [] => []
    | patterns => [(d, patterns)]
    end
  else [].

(** ** Counting *)

Definition decision_eqb (r1 r2 : decision) : bool :=
  match r1, r2 with
  | StandardExcludedDir, StandardExcludedDir
  | PatternExcludedDir, PatternExcludedDir
  | GitignoredDir, GitignoredDir
  | OutputFileItself, OutputFileItself
  | BinaryFile, BinaryFile
  | StandardExcludedFile, StandardExcludedFile
  | PatternExcludedFile, PatternExcludedFile
  | GitignoredFile, GitignoredFile
  | UnreadableFile, UnreadableFile
  | Processed, Processed => true
  | _, _ => false
  end.

(** How many of the decisions [ds] are among [kinds]. *)
Definition tally (kinds : list decision) (ds : list decision) : nat :=
  List.length (filter (fun r => existsb (decision_eqb r) kinds) ds).

(** ** Where a trace entry comes from *)

(** An entry made by the pruning of a directory the walk came down to. *)
Definition dir_entry (a : args) (cwd : list string) (fs : node)
           (gitignore_map : patterns_map) (rel : list string)
           (e : decision * list string) : Prop :=
  exists s d,
    snd e = (rel ++ s) ++ [d]
    /\ reached a cwd fs gitignore_map rel s
    /\ dir_stage a cwd fs gitignore_map (rel ++ s) d = Some (fst e).

(** An entry made by the file loop in a directory the walk came down
    to. *)
Definition file_entry (a : args) (cwd : list string) (fs : node)
           (gitignore_map : patterns_map) (rel : list string)
           (e : decision * list string) : Prop :=
  exists s name d st0 st1,
    snd e = (rel ++ s) ++ [name]
    /\ reached a cwd fs gitignore_map rel s
    /\ process_file a cwd fs gitignore_map (rel ++ s) (name, d) st0
       = Ok (note (fst e) ((rel ++ s) ++ [name]) st1).

(** A walk from [n] returns, only adds to the trace and to the output
    text, and every entry it adds is of one of these two kinds. *)
Definition walk_provenance (a : args) (cwd : list string) (fs : node)
           (gitignore_map : patterns_map) (n : node) : Prop :=
  forall rel st,
  exists st' delta w,
    walk a cwd fs gitignore_map n rel st = Ok st'
    /\ trace st' = trace st ++ delta
    /\ md_file st' = (md_file st ++ w)%string
    /\ (forall e, In e delta ->
          dir_entry a cwd fs gitignore_map rel e
          \/ file_entry a cwd fs gitignore_map rel e).


(** ** What a walk has to decide on *)

(** The paths a walk from the node [n], lying at [rel], comes to: the
    files of every directory it comes down to, and the subdirectories it
    removes there, in listing order. *)
Fixpoint seen (a : args) (cwd : list string) (fs : node)
         (gitignore_map : patterns_map) (n : node) (rel : list string)
  : list (list string) :=
  match n with
  | Dir es =>
      (fix each (es : list (string * node)) : list (list string) :=
         match es with
         | [] => []
         | (x, c) :: es' =>
             match c with
             | File _ => [rel ++ [x]]
             | _ =>
                 if kept (dir_stage a cwd fs gitignore_map rel x)
                 then seen a cwd fs gitignore_map c (rel ++ [x])
                 else [rel ++ [x]]
             end ++ each es'
         end) es
  | _ => []
  end.

(** A walk from [n] returns, and its new trace entries are for the paths
    it had to decide on, one entry for each. *)
Definition walk_complete (a : args) (cwd : list string) (fs : node)
           (gitignore_map : patterns_map) (n : node) : Prop :=
  forall rel st,
    well_formed n ->
    exists st' delta,
      walk a cwd fs gitignore_map n rel st = Ok st'
      /\ trace st' = trace st ++ delta
      /\ Permutation (map snd delta) (seen a cwd fs gitignore_map n rel).

(** ** The tree printer *)

(** The entry [m] lies at the path [s] below the entry [n]. *)
Inductive at_path : list string -> tree_gitignore.entry -> tree_gitignore.entry
                    -> Prop :=
| at_here (n : tree_gitignore.entry) : at_path [] n n
| at_down (x : string) (c : tree_gitignore.entry)
          (es : list (string * tree_gitignore.entry)) (s : list string)
          (m : tree_gitignore.entry) :
    In (x, c) es -> at_path s c m ->
    at_path (x :: s) (tree_gitignore.Listing es) m.
(* ================================================================== *)
(** * Binary detection *)
(* ================================================================== *)

Lemma ratio_exceeds_raises (removed total : nat) :
  (exists b, ratio_exceeds removed total = Raise ZeroDivisionError b) <-> total = 0.
Proof.
  unfold ratio_exceeds. destruct (Nat.eqb_spec total 0) as [E | E]; split.
  - intros _. exact E.
  - intros _. exists false. reflexivity.
  - intros [b Hb]. discriminate Hb.
  - intros H. contradiction.
Qed.

Lemma is_binary_file_returns (name : string) (d : file_data) :
  exists b, is_binary_file name d = Ok b.
Proof.
  unfold is_binary_file.
  destruct (mem _ BINARY_EXTENSIONS); [eexists; reflexivity |].
  destruct (raw d) as [content |]; [| eexists; reflexivity].
  cbv zeta. destruct (has_null _); [eexists; reflexivity |].
  destruct (firstn 1024 content) as [| b chunk] eqn:E; [eexists; reflexivity |].
  unfold ratio_exceeds. cbn [List.length Nat.eqb].
  destruct (_ <? _); eexists; reflexivity.
Qed.

Lemma is_binary_file_content (name : string) (d : file_data) (content : list byte) :
  not_denylisted name ->
  raw d = Some content ->
  is_binary_file name d = Ok (content_verdict text_chars (firstn 1024 content)).
Proof.
  unfold not_denylisted, is_binary_file, content_verdict. intros -> ->.
  cbv zeta. destruct (has_null _); [reflexivity |].
  destruct (firstn 1024 content) as [| b chunk]; [reflexivity |].
  unfold ratio_exceeds, non_text. cbn [List.length Nat.eqb orb].
  destruct (_ <? _); reflexivity.
Qed.

Lemma text_chars_listed (b : byte) :
  text_chars b = allowed_with_bell_and_backspace b.
Proof. destruct b; reflexivity. Qed.

Lemma content_verdict_ext (f g : byte -> bool) (chunk : list byte) :
  (forall b, f b = g b) -> content_verdict f chunk = content_verdict g chunk.
Proof.
  intros H. unfold content_verdict. f_equal. f_equal. f_equal. f_equal.
  apply filter_ext. intros b. now rewrite H.
Qed.

(** C10.  A readable file whose extension is not in the denylist and whose
    sample is empty is classified as not binary; and whatever the file, the
    classifier returns a verdict: it never divides by the length of an
    empty sample. *)
Theorem empty_sample_is_not_binary (name : string) (d : file_data)
        (content : list byte) :
  not_denylisted name ->
  raw d = Some content ->
  firstn 1024 content = [] ->
  is_binary_file name d = Ok false
  /\ (forall name' d', exists b, is_binary_file name' d' = Ok b).
Proof.
  intros Hext Hraw Hempty. split.
  - rewrite (is_binary_file_content name d content Hext Hraw), Hempty.
    reflexivity.
  - intros name' d'. apply is_binary_file_returns.
Qed.

Lemma empty_sample_is_not_binary_witness :
  is_binary_file "empty.txt" (mk_file (Some []) (Some "")) = Ok false
  /\ (forall name' d', exists b, is_binary_file name' d' = Ok b).
Proof.
  apply (empty_sample_is_not_binary "empty.txt" (mk_file (Some []) (Some "")) []);
    reflexivity.
Defined.

(** C2, as stated, fails: a readable text-named file that holds a bell, a
    backspace and a letter is not binary for the code, while two thirds of
    it lie outside the listed set. *)
Lemma content_rule_as_specified_fails : ~ content_rule_as_specified.
Proof.
  intros H.
  specialize (H "beep.txt" (mk_file (Some [x07; x08; x41]) (Some "")) [x07; x08; x41]
                eq_refl eq_refl).
  destruct H as [_ H]. specialize (H eq_refl). discriminate H.
Qed.

(** C2, amended.  For a readable file whose extension is not in the
    denylist the classifier looks at no more than the first 1024 bytes and
    answers binary exactly when that sample holds a null byte or more than
    30% of it falls outside the set of tab, newline, carriage return, form
    feed, escape, bell, backspace and the bytes 0x20-0xFF other than
    delete. *)
Theorem content_rule (name : string) (d : file_data) (content : list byte) :
  not_denylisted name ->
  raw d = Some content ->
  List.length (firstn 1024 content) <= 1024
  /\ (is_binary_file name d = Ok true
      <-> content_verdict allowed_with_bell_and_backspace (firstn 1024 content) = true)
  /\ (is_binary_file name d = Ok false
      <-> content_verdict allowed_with_bell_and_backspace (firstn 1024 content) = false).
Proof.
  intros Hext Hraw.
  rewrite (is_binary_file_content name d content Hext Hraw).
  rewrite (content_verdict_ext _ _ _ text_chars_listed).
  split; [apply firstn_le_length |].
  split; split; intros H; try (injection H as H; exact H); now rewrite H.
Qed.

Lemma content_rule_witness :
  List.length (firstn 1024 [x07; x08; x41]) <= 1024
  /\ (is_binary_file "beep.txt" (mk_file (Some [x07; x08; x41]) (Some "")) = Ok true
      <-> content_verdict allowed_with_bell_and_backspace
            (firstn 1024 [x07; x08; x41]) = true)
  /\ (is_binary_file "beep.txt" (mk_file (Some [x07; x08; x41]) (Some "")) = Ok false
      <-> content_verdict allowed_with_bell_and_backspace
            (firstn 1024 [x07; x08; x41]) = false).
Proof.
  apply (content_rule "beep.txt" (mk_file (Some [x07; x08; x41]) (Some ""))
                      [x07; x08; x41]); reflexivity.
Defined.

(* ================================================================== *)
(** * Start-up checks, ignore rules and exclude patterns *)
(* ================================================================== *)

(** C9.  When the output file exists and [--force] is not given, [main]
    stops at its start-up checks: the filesystem, and with it the content
    of the output file, is what it was, no directory has been walked and
    every counter is still zero. *)
Theorem existing_output_is_kept (a : args) (cwd : list string) (fs : node) :
  exists_ fs (output_file a) = true ->
  force a = false ->
  exists e,
    main a cwd fs = (fs, e, init_state)
    /\ (e = SourceNotFound \/ e = OutputExists)
    /\ visited init_state = []
    /\ trace init_state = []
    /\ counts init_state = mk_counters 0 0 0 0 0 0.
Proof.
  intros Hexists Hforce. unfold main. rewrite Hexists, Hforce.
  destruct (is_dir fs (source_dir a)); cbn [negb andb].
  - exists OutputExists. repeat split. now right.
  - exists SourceNotFound. repeat split. now left.
Qed.

Lemma existing_output_is_kept_witness :
  exists e,
    main (demo_args false) ["w"; "proj"] demo_fs = (demo_fs, e, init_state)
    /\ (e = SourceNotFound \/ e = OutputExists)
    /\ visited init_state = []
    /\ trace init_state = []
    /\ counts init_state = mk_counters 0 0 0 0 0 0.
Proof.
  apply (existing_output_is_kept (demo_args false) ["w"; "proj"] demo_fs);
    reflexivity.
Defined.

(** With [--force] the same run does walk the tree and replaces the
    dump. *)
Example forced_run_overwrites :
  let '(fs', e, st) := main (demo_args true) ["w"; "proj"] demo_fs in
  e = Finished
  /\ visited st = [[]; ["src"]]
  /\ read_text fs' ["w"; "dump.md"] = Some (md_file st)
  /\ read_text fs' ["w"; "dump.md"] <> read_text demo_fs ["w"; "dump.md"]
  /\ trace st = [ (PatternExcludedDir, ["build"]);
                  (StandardExcludedDir, ["node_modules"]);
                  (Processed, [".gitignore"]);
                  (Processed, ["a.py"]);
                  (GitignoredFile, ["b.log"]);
                  (Processed, ["notes.txt"]);
                  (BinaryFile, ["logo.png"]);
                  (Processed, ["src"; "main.c"]) ].
Proof. vm_compute. repeat split. discriminate. Qed.

(** C1, on the code.  The ignore file of the source directory holds
    [*.log]; its scope is the directory of the candidate [b.log].  Started
    in the source directory the matcher ignores the candidate; started one
    level up, with the same filesystem and the same rule sets, it does not,
    and the log is dumped. *)
Theorem ignore_match_depends_on_cwd :
  demo_map = [(["w"; "proj"], ["*.log"])]
  /\ matches_gitignore ["w"; "proj"] demo_fs "b.log" demo_map = true
  /\ matches_gitignore ["w"] demo_fs "b.log" demo_map = false
  /\ relative_to_scope ["w"] (Path.of_string "b.log") ["w"; "proj"] = None
  /\ In (Processed, ["b.log"])
        (trace (snd (main (demo_args true) ["w"] demo_fs))).
Proof. vm_compute. repeat split. do 4 right. now left. Qed.

(** C5, on the code.  The pattern [**/notes.txt] excludes a top-level
    directory of that name, through the second attempt of the directory
    loop; the file loop has no second attempt, and a top-level file of that
    name is dumped. *)
Theorem recursive_anchor_misses_root_file :
  dir_exclude_pattern ["**/notes.txt"] (posix ["notes.txt"]) = Some "**/notes.txt"
  /\ file_exclude_pattern ["**/notes.txt"] (posix ["notes.txt"]) = None
  /\ file_exclude_pattern ["**/notes.txt"] (posix ["docs"; "notes.txt"])
     = Some "**/notes.txt"
  /\ In (Processed, ["notes.txt"])
        (trace (snd (main (demo_args true) ["w"; "proj"] demo_fs))).
Proof. vm_compute. repeat split. do 5 right. now left. Qed.

(* ================================================================== *)
(** * The read-error counter *)
(* ================================================================== *)

(** C3, as stated, fails: a picture that reads without error raises the
    read-error counter. *)
Lemma read_error_counter_as_specified_fails : ~ read_error_counter_as_specified.
Proof.
  intros H.
  specialize (H (demo_args true) ["w"; "proj"] demo_fs demo_map []
                "logo.png" (mk_file (Some []) (Some "")) init_state
                (note BinaryFile ["logo.png"] init_state) eq_refl eq_refl).
  destruct H as [H | H]; discriminate H.
Qed.

Lemma bump_one_up (r : decision) (c : counters) : one_counter_up c (bump r c).
Proof. unfold one_counter_up, total. destruct r; cbn; lia. Qed.

Lemma bump_read_error (r : decision) (c : counters) :
  skipped_read_error (bump r c) = S (skipped_read_error c)
  <-> r = BinaryFile \/ r = UnreadableFile.
Proof.
  destruct r; cbn; split; intros H; try lia; try (now left); try (now right);
    destruct H as [H | H]; discriminate H.
Qed.

(** The decision the file loop takes for a file, and the tests that lead
    to the two decisions counted as read errors. *)
Lemma process_file_verdict (a : args) (cwd : list string) (fs : node)
      (gitignore_map : patterns_map) (rel : list string) (name : string)
      (d : file_data) (st : state) :
  exists r st1,
    process_file a cwd fs gitignore_map rel (name, d) st
    = Ok (note r (rel ++ [name]) st1)
    /\ counts st1 = counts st /\ trace st1 = trace st
    /\ (r = BinaryFile
        <-> path_eqb (source_dir a ++ rel ++ [name]) (output_file a) = false
            /\ is_binary_file name d = Ok true)
    /\ (r = UnreadableFile
        <-> path_eqb (source_dir a ++ rel ++ [name]) (output_file a) = false
            /\ is_binary_file name d = Ok false
            /\ existsb (fun part => mem part (exclude_dirs a)) (rel ++ [name]) = false
            /\ file_exclude_pattern (exclude_patterns a) (posix (rel ++ [name])) = None
            /\ matches_gitignore cwd fs (posix (rel ++ [name])) gitignore_map = false
            /\ text d = None).
Proof.
  unfold process_file.
  destruct (path_eqb _ _) eqn:Eout.
  { exists OutputFileItself, st. repeat split; try easy. }
  destruct (is_binary_file_returns name d) as [b Hb]. rewrite Hb.
  destruct b.
  { exists BinaryFile, st. repeat split; try easy. }
  destruct (existsb _ _) eqn:Estd.
  { exists StandardExcludedFile, st. repeat split; try easy. }
  destruct (file_exclude_pattern _ _) eqn:Epat.
  { exists PatternExcludedFile, st. repeat split; try easy. }
  destruct (matches_gitignore _ _ _ _) eqn:Egit.
  { exists GitignoredFile, st. repeat split; try easy. }
  destruct (text d) as [content |] eqn:Etext.
  - eexists Processed, _. split; [reflexivity |]. repeat split; try easy.
  - exists UnreadableFile, st. repeat split; try easy.
Qed.

(** C3, amended.  There is one read-error counter and no counter for
    binary content.  Every file the loop comes to raises exactly one of
    the six counters, by one.  The read-error counter is the one raised
    exactly in two cases: the file is not the output file and the detector
    classifies it as binary (by extension, by content, or because it
    cannot be opened), which is reported as a binary file; or the file is
    not the output file, passed the detector, the literal-exclude test, the
    exclude patterns and the ignore rules, and its text cannot be read,
    which is reported as a file that could not be read. *)
Theorem read_error_counter (a : args) (cwd : list string) (fs : node)
        (gitignore_map : patterns_map) (rel : list string) (name : string)
        (d : file_data) (st : state) :
  let p := rel ++ [name] in
  let binary :=
    path_eqb (source_dir a ++ p) (output_file a) = false
    /\ is_binary_file name d = Ok true in
  let unreadable :=
    path_eqb (source_dir a ++ p) (output_file a) = false
    /\ is_binary_file name d = Ok false
    /\ existsb (fun part => mem part (exclude_dirs a)) p = false
    /\ file_exclude_pattern (exclude_patterns a) (posix p) = None
    /\ matches_gitignore cwd fs (posix p) gitignore_map = false
    /\ text d = None in
  exists st' r,
    process_file a cwd fs gitignore_map rel (name, d) st = Ok st'
    /\ one_counter_up (counts st) (counts st')
    /\ (skipped_read_error (counts st') = S (skipped_read_error (counts st))
        <-> binary \/ unreadable)
    /\ trace st' = trace st ++ [(r, p)]
    /\ (r = BinaryFile <-> binary)
    /\ (r = UnreadableFile <-> unreadable)
    /\ (raw d = None -> is_binary_file name d = Ok true).
Proof.
  intros p binary unreadable.
  destruct (process_file_verdict a cwd fs gitignore_map rel name d st)
    as (r & st1 & E & C & T & HB & HU).
  exists (note r p st1), r. split; [exact E |].
  cbn [note counts trace]. rewrite C, T.
  split; [apply bump_one_up |].
  split; [| split; [reflexivity | split; [exact HB | split; [exact HU |]]]].
  - rewrite bump_read_error. unfold binary, unreadable, p. now rewrite HB, HU.
  - intros Hraw. unfold is_binary_file. rewrite Hraw.
    now destruct (mem _ BINARY_EXTENSIONS).
Qed.
(* ================================================================== *)
(** * Parsing ignore files *)
(* ================================================================== *)

Section Strip.

Variable p : ascii -> bool.

Lemma rstrip_with_idem (s : string) :
  Py.rstrip_with p (Py.rstrip_with p s) = Py.rstrip_with p s.
Proof.
  induction s as [| c s IH]; [reflexivity |].
  cbn [Py.rstrip_with].
  destruct (Py.rstrip_with p s) as [| c' r] eqn:E.
  - destruct (p c) eqn:Ec; cbn [Py.rstrip_with]; [reflexivity |].
    now rewrite Ec.
  - cbn [Py.rstrip_with]. cbn [Py.rstrip_with] in IH. now rewrite IH.
Qed.

(** Stripping on the right leaves a first character that is kept on the
    left where it is. *)
Lemma rstrip_with_head (c : ascii) (s : string) :
  p c = false -> exists r, Py.rstrip_with p (String c s) = String c r.
Proof.
  intros Hc. cbn [Py.rstrip_with].
  destruct (Py.rstrip_with p s); rewrite ?Hc; eexists; reflexivity.
Qed.

Lemma lstrip_with_head (s : string) :
  Py.lstrip_with p s = EmptyString
  \/ exists c r, Py.lstrip_with p s = String c r /\ p c = false.
Proof.
  induction s as [| c s IH]; [now left |].
  cbn [Py.lstrip_with]. destruct (p c) eqn:Ec; [exact IH |].
  right. now exists c, s.
Qed.

End Strip.

Lemma strip_idem (s : string) : Py.strip (Py.strip s) = Py.strip s.
Proof.
  unfold Py.strip.
  destruct (lstrip_with_head Py.is_space s) as [E | (c & r & E & Hc)]; rewrite E.
  - reflexivity.
  - destruct (rstrip_with_head Py.is_space c r Hc) as [r' Hr]. rewrite Hr.
    cbn [Py.lstrip_with]. rewrite Hc. rewrite <- Hr.
    apply rstrip_with_idem.
Qed.

Lemma is_rule_strip (line : string) : is_rule (Py.strip line) = is_rule line.
Proof. unfold is_rule, is_blank, is_comment. now rewrite strip_idem. Qed.

Lemma parse_lines_filter (lines patterns : list string) :
  parse_lines lines patterns = patterns ++ map Py.strip (filter is_rule lines).
Proof.
  revert patterns. induction lines as [| line rest IH]; intros patterns.
  - cbn. now rewrite app_nil_r.
  - cbn [parse_lines filter]. unfold is_rule at 1, is_blank, is_comment.
    destruct (negb (String.eqb (Py.strip line) "")
              && negb (Py.startswith "#" (Py.strip line))).
    + rewrite IH, <- app_assoc. reflexivity.
    + apply IH.
Qed.

(** C8, as stated, fails: the tree printer keeps a line of two spaces. *)
Lemma rule_sets_as_specified_fails : ~ rule_sets_as_specified.
Proof.
  intros H. destruct (H ("  " ++ nl ++ "*.log")%string) as [_ H2].
  vm_compute in H2. inversion H2 as [| x l Hx Hl]. discriminate Hx.
Qed.

(** C8, amended.  The Markdown dump keeps, in file order and stripped of
    the surrounding whitespace, exactly the lines that are neither blank
    (empty or whitespace only) nor comments, so its rule set holds no blank
    and no comment line.  The tree printer keeps, in file order and as
    written, exactly the lines that are neither empty nor comments: its
    rule set holds no empty and no comment line, and a line of whitespace
    only stays in it. *)
Theorem rule_sets (content : string) :
  parse_text (Some content) = map Py.strip (filter is_rule (Py.file_lines content))
  /\ Forall (fun p => is_rule p = true) (parse_text (Some content))
  /\ tree_gitignore.load_lines content
     = filter (fun line => negb (String.eqb line "") && negb (is_comment line))
              (Py.splitlines content)
  /\ Forall (fun p => p <> ""%string /\ is_comment p = false)
            (tree_gitignore.load_lines content).
Proof.
  assert (E : parse_text (Some content)
              = map Py.strip (filter is_rule (Py.file_lines content))).
  { unfold parse_text. now rewrite parse_lines_filter. }
  split; [exact E |]. split; [| split].
  - rewrite E. apply Forall_forall. intros p Hp.
    apply in_map_iff in Hp. destruct Hp as (line & <- & Hline).
    apply filter_In in Hline. rewrite is_rule_strip. apply Hline.
  - reflexivity.
  - apply Forall_forall. intros p Hp. unfold tree_gitignore.load_lines in Hp.
    apply filter_In in Hp. destruct Hp as [_ Hp].
    apply andb_true_iff in Hp. destruct Hp as [H1 H2].
    split.
    + intros ->. discriminate H1.
    + unfold is_comment. now apply negb_true_iff in H2.
Qed.

Example whitespace_line_in_both_tools :
  parse_text (Some ("  " ++ nl ++ " *.log " ++ nl ++ " # c" ++ nl)%string) = ["*.log"]
  /\ tree_gitignore.load_lines ("  " ++ nl ++ " *.log " ++ nl ++ " # c" ++ nl)%string
     = ["  "; " *.log "].
Proof. split; reflexivity. Qed.

(* ================================================================== *)
(** * Display order of the tree printer *)
(* ================================================================== *)

Module TreeOrder.

Import tree_gitignore.

Lemma leb_iff (s t : string) :
  String.leb s t = true <-> s = t \/ String_as_OT.lt s t.
Proof.
  unfold String.leb.
  destruct (String.compare s t) eqn:E.
  - apply String_as_OT.cmp_eq in E. split; [now left | reflexivity].
  - apply String_as_OT.cmp_lt in E. split; [now right | reflexivity].
  - split; [discriminate |]. intros [-> | H].
    + assert (E' : String_as_OT.cmp t t = Eq) by now apply String_as_OT.cmp_eq.
      unfold String_as_OT.cmp in E'. congruence.
    + apply String_as_OT.cmp_lt in H. unfold String_as_OT.cmp in H. congruence.
Qed.

Lemma leb_trans (s t u : string) :
  String.leb s t = true -> String.leb t u = true -> String.leb s u = true.
Proof.
  rewrite !leb_iff. intros [-> | H1] [-> | H2]; auto.
  right. eapply String_as_OT.lt_trans; eassumption.
Qed.

Lemma key_le_total (x y : item) : key_le x y \/ key_le y x.
Proof.
  unfold key_le, key_leb, key. cbn [fst snd].
  destruct (is_file_ x), (is_file_ y); auto; apply String.leb_total.
Qed.

Lemma key_le_trans (x y z : item) : key_le x y -> key_le y z -> key_le x z.
Proof.
  unfold key_le, key_leb, key. cbn [fst snd].
  destruct (is_file_ x), (is_file_ y), (is_file_ z);
    try discriminate; auto; apply leb_trans.
Qed.

Lemma insert_in (x y : item) (l : list item) :
  In y (insert x l) <-> y = x \/ In y l.
Proof.
  induction l as [| z l IH]; cbn [insert].
  - cbn. intuition.
  - destruct (key_leb (key x) (key z)); cbn [In]; [intuition |].
    rewrite IH. intuition.
Qed.

Lemma insert_sorted (x : item) (l : list item) :
  StronglySorted key_le l -> StronglySorted key_le (insert x l).
Proof.
  induction 1 as [| z l Hl IH Hz]; cbn [insert].
  - repeat constructor.
  - destruct (key_leb (key x) (key z)) eqn:E.
    + constructor; [now constructor |].
      constructor; [exact E |].
      eapply Forall_impl; [| exact Hz].
      intros w Hw. eapply key_le_trans; [exact E | exact Hw].
    + constructor; [exact IH |].
      apply Forall_forall. intros w Hw. apply insert_in in Hw.
      destruct Hw as [-> | Hw].
      * destruct (key_le_total x z) as [H | H]; [| exact H].
        unfold key_le in H. congruence.
      * rewrite Forall_forall in Hz. now apply Hz.
Qed.

Lemma sorted_sorted (l : list item) : StronglySorted key_le (sorted l).
Proof.
  induction l as [| x l IH]; cbn; [constructor | now apply insert_sorted].
Qed.

Lemma insert_perm (x : item) (l : list item) : Permutation (insert x l) (x :: l).
Proof.
  induction l as [| z l IH]; cbn [insert]; [reflexivity |].
  destruct (key_leb (key x) (key z)); [reflexivity |].
  rewrite IH. apply perm_swap.
Qed.

Lemma sorted_perm (l : list item) : Permutation (sorted l) l.
Proof.
  induction l as [| x l IH]; cbn; [reflexivity |].
  rewrite insert_perm. now constructor.
Qed.





Section Printer.

Variable match_file : string -> bool.
Variable gitignore_root : list string.

Lemma build_tree_Listing (name : string) (es : list (string * entry))
      (rel : list string) (prefix : string) :
  build_tree match_file gitignore_root name (Listing es) rel prefix
  = print_level match_file rel prefix (items_of match_file gitignore_root es).
Proof.
  cbn [build_tree]. f_equal. unfold items_of.
  induction es as [| [nm c] es IH]; [reflexivity |].
  cbn [map fst snd]. rewrite <- IH. reflexivity.
Qed.



End Printer.

End TreeOrder.


Example special_entry_among_directories :
  tree_gitignore.build_tree (fun _ => false) [] "top"
    (tree_gitignore.Listing
       [("z", tree_gitignore.Listing []); ("a", tree_gitignore.Special)]) [] ""
  = ["├── a"; "└── z/"].
Proof. reflexivity. Qed.


(** Scenario C: subdirectories [z] and [a] and a file [m.txt]. *)
Example scenario_C :
  tree_gitignore.build_tree (fun _ => false) [] "top"
    (tree_gitignore.of_node
       (Dir [("z", Dir []); ("m.txt", text_file ""); ("a", Dir [])])) [] ""
  = ["├── a/"; "├── z/"; "└── m.txt"].
Proof. reflexivity. Qed.
(* ================================================================== *)
(** * Directory pruning *)
(* ================================================================== *)

Lemma mem_In (x : string) (l : list string) : mem x l = true <-> In x l.
Proof.
  unfold mem. rewrite existsb_exists. split.
  - intros (y & Hy & E). apply String.eqb_eq in E. now subst.
  - intros H. exists x. split; [exact H | apply String.eqb_refl].
Qed.

Lemma mem_filter (f : string -> bool) (x : string) (l : list string) :
  In x l -> mem x (filter f l) = f x.
Proof.
  intros H. destruct (f x) eqn:E.
  - apply mem_In, filter_In. now split.
  - destruct (mem x (filter f l)) eqn:M; [| reflexivity].
    apply mem_In, filter_In in M. destruct M as [_ M]. congruence.
Qed.

Lemma path_eqb_eq (p q : list string) : path_eqb p q = true <-> p = q.
Proof.
  unfold path_eqb. destruct (list_eq_dec string_dec p q); split; congruence.
Qed.

Lemma path_eqb_refl (p : list string) : path_eqb p p = true.
Proof. now apply path_eqb_eq. Qed.

Lemma path_eqb_neq (p q : list string) : p <> q -> path_eqb p q = false.
Proof.
  intros H. destruct (path_eqb p q) eqn:E; [| reflexivity].
  apply path_eqb_eq in E. contradiction.
Qed.

Lemma record_all_nil (st : state) : record_all [] st = st.
Proof. destruct st. unfold record_all. cbn. now rewrite app_nil_r. Qed.

Lemma record_all_app (d1 d2 : list (decision * list string)) (st : state) :
  record_all (d1 ++ d2) st = record_all d2 (record_all d1 st).
Proof.
  unfold record_all, bump_all. cbn.
  now rewrite map_app, fold_left_app, app_assoc.
Qed.

Lemma note_record_all (r : decision) (p : list string) (st : state) :
  note r p st = record_all [(r, p)] st.
Proof. reflexivity. Qed.

Lemma advances_record_all (delta : list (decision * list string)) (st : state) :
  advances st (record_all delta st) delta [].
Proof. unfold advances, record_all. cbn. now rewrite app_nil_r. Qed.

Lemma advances_trans (st0 st1 st2 : state)
      (d1 d2 : list (decision * list string)) (v1 v2 : list (list string)) :
  advances st0 st1 d1 v1 -> advances st1 st2 d2 v2 ->
  advances st0 st2 (d1 ++ d2) (v1 ++ v2).
Proof.
  unfold advances, bump_all. intros (T1 & V1 & C1) (T2 & V2 & C2).
  rewrite T2, T1, V2, V1, C2, C1, map_app, fold_left_app, !app_assoc.
  repeat split.
Qed.

Lemma entries_at_app (p : list string) (d1 d2 : list (decision * list string)) :
  entries_at p (d1 ++ d2) = entries_at p d1 ++ entries_at p d2.
Proof. apply filter_app. Qed.

Lemma entries_at_none (p : list string) (delta : list (decision * list string)) :
  (forall e, In e delta -> snd e <> p) -> entries_at p delta = [].
Proof.
  intros H. induction delta as [| e delta IH]; [reflexivity |].
  cbn. rewrite path_eqb_neq by (apply H; now left).
  apply IH. intros e' He'. apply H. now right.
Qed.

Section Pruning.

Variable a : args.
Variable cwd : list string.
Variable fs : node.
Variable gitignore_map : patterns_map.

Local Abbreviation stage := (dir_stage a cwd fs gitignore_map).
Local Abbreviation late := (late_stage a cwd fs gitignore_map).

Lemma filter_dirs_spec (rel : list string) (dirs pat git : list string)
      (st : state) :
  filter_dirs a cwd fs gitignore_map rel dirs pat git st
  = (rev (filter (by_pattern a cwd fs gitignore_map rel) dirs) ++ pat,
     rev (filter (by_gitignore a cwd fs gitignore_map rel) dirs) ++ git,
     record_all (flat_map (late_entry a cwd fs gitignore_map rel) dirs) st).
Proof.
  revert pat git st.
  induction dirs as [| d dirs IH]; intros pat git st.
  - cbn. now rewrite record_all_nil.
  - cbn [filter_dirs flat_map filter].
    unfold by_pattern, by_gitignore, late_entry, late, late_stage.
    destruct (dir_exclude_pattern _ _) as [offending |].
    + rewrite IH, note_record_all, <- record_all_app. cbn [rev app].
      now rewrite <- !app_assoc.
    + destruct (matches_gitignore _ _ _ _).
      * rewrite IH, note_record_all, <- record_all_app. cbn [rev app].
        now rewrite <- !app_assoc.
      * now rewrite IH.
Qed.

Lemma fold_note (r : decision) (rel : list string) (l : list string)
      (st : state) :
  fold_left (fun st d => note r (rel ++ [d]) st) l st
  = record_all (map (fun d => (r, rel ++ [d])) l) st.
Proof.
  revert st. induction l as [| d l IH]; intros st; cbn [fold_left map].
  - now rewrite record_all_nil.
  - rewrite IH, note_record_all, <- record_all_app. reflexivity.
Qed.

Lemma kept_filter (rel : list string) (dirs : list string) :
  filter (fun d => kept (late rel d))
         (filter (fun d => negb (std_excluded a d)) dirs)
  = filter (fun d => kept (stage rel d)) dirs.
Proof.
  induction dirs as [| d dirs IH]; [reflexivity |].
  cbn [filter]. unfold dir_stage at 1.
  destruct (std_excluded a d); cbn [negb kept filter]; [exact IH |].
  destruct (kept (late rel d)); now rewrite IH.
Qed.

Lemma mem_nodup (x : string) (l : list string) :
  mem x (nodup string_dec l) = mem x l.
Proof.
  destruct (mem x l) eqn:E.
  - apply mem_In, nodup_In. now apply mem_In.
  - destruct (mem x (nodup string_dec l)) eqn:E'; [| reflexivity].
    apply mem_In, nodup_In, mem_In in E'. congruence.
Qed.

Lemma prune_dirs_spec (rel : list string) (dirs : list string) (st : state) :
  prune_dirs a cwd fs gitignore_map rel dirs st
  = (filter (fun d => kept (stage rel d)) dirs,
     record_all (pruning_entries a cwd fs gitignore_map rel dirs) st).
Proof.
  unfold prune_dirs.
  assert (E1 : filter (fun d => negb (mem d (nodup string_dec
                                              (filter (std_excluded a) dirs)))) dirs
               = filter (fun d => negb (std_excluded a d)) dirs).
  { apply filter_ext_in. intros d Hd. now rewrite mem_nodup, mem_filter. }
  rewrite E1, filter_dirs_spec, fold_note, <- record_all_app.
  rewrite !app_nil_r. f_equal.
  rewrite <- kept_filter. apply filter_ext_in. intros d Hd.
  assert (M : forall f, mem d (rev (filter f (filter (fun d => negb (std_excluded a d)) dirs)))
                        = f d).
  { intros f. rewrite <- (mem_filter f d _ Hd).
    destruct (mem d (filter f _)) eqn:E.
    - apply mem_In. apply -> in_rev. now apply mem_In.
    - destruct (mem d (rev _)) eqn:E'; [| reflexivity].
      apply mem_In in E'. apply in_rev in E'. apply mem_In in E'. congruence. }
  rewrite !M. unfold by_gitignore, by_pattern, late_stage.
  destruct (dir_exclude_pattern _ _); [reflexivity |].
  destruct (matches_gitignore _ _ _ _); reflexivity.
Qed.

Lemma pruning_entries_NoDup (rel : list string) (dirs : list string) :
  NoDup dirs ->
  pruning_entries a cwd fs gitignore_map rel dirs
  = flat_map (late_entry a cwd fs gitignore_map rel)
             (filter (fun d => negb (std_excluded a d)) dirs)
    ++ map (fun d => (StandardExcludedDir, rel ++ [d]))
           (filter (std_excluded a) dirs).
Proof.
  intros ND. unfold pruning_entries.
  now rewrite (nodup_fixed_point string_dec (NoDup_filter (std_excluded a) ND)).
Qed.

Lemma pruning_entries_path (rel : list string) (dirs : list string)
      (e : decision * list string) :
  In e (pruning_entries a cwd fs gitignore_map rel dirs) ->
  exists d, In d dirs /\ snd e = rel ++ [d].
Proof.
  unfold pruning_entries. intros H. apply in_app_or in H. destruct H as [H | H].
  - apply in_flat_map in H. destruct H as (d & Hd & He).
    apply filter_In in Hd. exists d. split; [apply Hd |].
    unfold late_entry in He. destruct (late_stage _ _ _ _ _ _); [| contradiction].
    destruct He as [<- | []]. reflexivity.
  - apply in_map_iff in H. destruct H as (d & <- & Hd).
    apply nodup_In, filter_In in Hd. exists d. split; [apply Hd | reflexivity].
Qed.

Lemma late_entry_path (rel : list string) (d : string)
      (e : decision * list string) :
  In e (late_entry a cwd fs gitignore_map rel d) -> snd e = rel ++ [d].
Proof.
  unfold late_entry. destruct (late_stage _ _ _ _ _ _); [| contradiction].
  intros [<- | []]. reflexivity.
Qed.

Lemma pruning_entries_perm (rel : list string) (dirs : list string) :
  NoDup dirs ->
  Permutation (pruning_entries a cwd fs gitignore_map rel dirs)
              (flat_map (entry_of a cwd fs gitignore_map rel) dirs).
Proof.
  intros ND. rewrite (pruning_entries_NoDup rel dirs ND). clear ND.
  induction dirs as [| d dirs IH]; [reflexivity |].
  cbn [filter flat_map]. unfold entry_of at 1, dir_stage.
  destruct (std_excluded a d); cbn [negb flat_map map app].
  - rewrite <- IH. symmetry. apply Permutation_middle.
  - fold (late_entry a cwd fs gitignore_map rel d).
    rewrite <- app_assoc. apply Permutation_app_head. exact IH.
Qed.

Lemma pruning_entries_at (rel : list string) (dirs : list string) (d : string) :
  NoDup dirs ->
  entries_at (rel ++ [d]) (pruning_entries a cwd fs gitignore_map rel dirs)
  = if mem d dirs then entry_of a cwd fs gitignore_map rel d else [].
Proof.
  intros ND. rewrite (pruning_entries_NoDup rel dirs ND), entries_at_app.
  induction ND as [| x dirs Hx ND IH]; [reflexivity |].
  cbn [filter mem existsb]. fold (mem d dirs).
  destruct (String.eqb_spec d x) as [-> | Hdx].
  - (* the directory itself: its entry, and none from the others *)
    assert (M : mem x dirs = false).
    { destruct (mem x dirs) eqn:E; [| reflexivity]. apply mem_In in E. contradiction. }
    rewrite M in IH. apply app_eq_nil in IH. destruct IH as [IH1 IH2].
    cbn [orb]. unfold entry_of, dir_stage.
    destruct (std_excluded a x); cbn [negb map flat_map].
    + rewrite IH1. cbn [entries_at filter snd app]. rewrite path_eqb_refl.
      fold (entries_at (rel ++ [x])
              (map (fun d => (StandardExcludedDir, rel ++ [d]))
                   (filter (std_excluded a) dirs))).
      now rewrite IH2.
    + rewrite entries_at_app, IH1, IH2, !app_nil_r.
      unfold late_entry.
      destruct (late_stage a cwd fs gitignore_map rel x); [| reflexivity].
      cbn. now rewrite path_eqb_refl.
  - cbn [orb].
    assert (N : rel ++ [x] <> rel ++ [d]).
    { intros E. apply app_inv_head in E. congruence. }
    destruct (std_excluded a x); cbn [negb map flat_map].
    + cbn [entries_at filter snd]. rewrite (path_eqb_neq _ _ N). exact IH.
    + rewrite entries_at_app.
      rewrite (entries_at_none (rel ++ [d]) (late_entry a cwd fs gitignore_map rel x)).
      * exact IH.
      * intros e He. now rewrite (late_entry_path _ _ _ He).
Qed.

End Pruning.

(* ================================================================== *)
(** * The walk *)
(* ================================================================== *)

Lemma node_ind' (P : node -> Prop) :
  (forall d, P (File d)) ->
  P Locked ->
  (forall es, Forall (fun e => P (snd e)) es -> P (Dir es)) ->
  forall n, P n.
Proof.
  intros HF HL HD. fix IH 1. intros [d | es |].
  - apply HF.
  - apply HD.
    exact ((fix all (l : list (string * node)) : Forall (fun e => P (snd e)) l :=
              match l with
              | [] => Forall_nil _
              | e :: l' => Forall_cons e (IH (snd e)) (all l')
              end) es).
  - apply HL.
Qed.

Lemma well_formed_Dir (es : list (string * node)) :
  well_formed (Dir es)
  <-> NoDup (map fst es) /\ Forall (fun e => well_formed (snd e)) es.
Proof.
  cbn [well_formed]. split; intros [H1 H2]; (split; [exact H1 |]); clear H1.
  - induction es as [| e es IH]; constructor; [apply H2 | apply IH, H2].
  - induction H2 as [| e es He Hes IH]; [exact I | split; assumption].
Qed.

Lemma subdirs_In (d : string) (es : list (string * node)) :
  In d (subdirs es) <->
  exists child, In (d, child) es /\ forall fd, child <> File fd.
Proof.
  unfold subdirs. rewrite in_map_iff. split.
  - intros ([x c] & <- & H). apply filter_In in H. destruct H as [H1 H2].
    exists c. split; [exact H1 |]. intros fd ->. discriminate H2.
  - intros (c & H1 & H2). exists (d, c). split; [reflexivity |].
    apply filter_In. split; [exact H1 |].
    destruct c as [fd | |]; [now destruct (H2 fd) | reflexivity | reflexivity].
Qed.

Lemma nondirs_In (x : string) (es : list (string * node)) :
  In x (map fst (nondirs es)) -> exists fd, In (x, File fd) es.
Proof.
  rewrite in_map_iff. intros ([y fd] & <- & H). unfold nondirs in H.
  apply in_flat_map in H. destruct H as ([z c] & Hz & Hc).
  destruct c as [fd' | |]; cbn in Hc; try contradiction.
  destruct Hc as [E | []]. injection E as -> ->. now exists fd.
Qed.

Lemma NoDup_names_functional (es : list (string * node)) (x : string)
      (c1 c2 : node) :
  NoDup (map fst es) -> In (x, c1) es -> In (x, c2) es -> c1 = c2.
Proof.
  induction es as [| [y c] es IH]; [contradiction |].
  cbn [map fst]. intros ND H1 H2. inversion ND as [| ? ? Hy ND']; subst.
  destruct H1 as [E1 | H1], H2 as [E2 | H2].
  - congruence.
  - injection E1 as -> ->. destruct Hy. apply in_map_iff. now exists (x, c2).
  - injection E2 as -> ->. destruct Hy. apply in_map_iff. now exists (x, c1).
  - now apply IH.
Qed.

Lemma NoDup_subdirs (es : list (string * node)) :
  NoDup (map fst es) -> NoDup (subdirs es).
Proof.
  unfold subdirs. induction es as [| [y c] es IH]; [constructor |].
  cbn [map fst filter snd]. intros ND. inversion ND as [| ? ? Hy ND']; subst.
  destruct c; cbn [map fst]; try (now apply IH);
    (constructor; [| now apply IH]);
    intros H; apply Hy; apply in_map_iff in H; destruct H as (e & <- & He);
    apply filter_In in He; apply in_map; apply He.
Qed.

Lemma find_entry_In (x : string) (es : list (string * node)) (c : node) :
  find_entry x es = Some c -> In (x, c) es.
Proof.
  induction es as [| [y m] es IH]; [discriminate |].
  cbn [find_entry]. destruct (String.eqb_spec x y) as [-> | N].
  - intros E. injection E as ->. now left.
  - intros E. right. now apply IH.
Qed.

Lemma lookup_Dir_cons (c : string) (q : list string) (es es' : list (string * node)) :
  lookup (c :: q) (Dir es) = Some (Dir es') ->
  exists child, find_entry c es = Some child /\ lookup q child = Some (Dir es').
Proof.
  cbn [lookup]. destruct (find_entry c es) as [child |]; [| discriminate].
  intros H. now exists child.
Qed.

Lemma lookup_File (q : list string) (fd : file_data) (es : list (string * node)) :
  lookup q (File fd) <> Some (Dir es).
Proof. destruct q; cbn; discriminate. Qed.

Lemma app_cons_assoc {A : Type} (l : list A) (x : A) (s : list A) :
  (l ++ [x]) ++ s = l ++ x :: s.
Proof. now rewrite <- app_assoc. Qed.

Lemma advances_refl (st : state) : advances st st [] [].
Proof. unfold advances. cbn. now rewrite !app_nil_r. Qed.

Section Walk.

Variable a : args.
Variable cwd : list string.
Variable fs : node.
Variable gitignore_map : patterns_map.

Local Abbreviation stage := (dir_stage a cwd fs gitignore_map).
Local Abbreviation came_to := (reached a cwd fs gitignore_map).

Lemma reached_nil (rel : list string) : came_to rel [].
Proof. intros s1 d s2 E. now destruct s1. Qed.

Lemma reached_cons (rel : list string) (c : string) (s : list string) :
  stage rel c = None -> came_to (rel ++ [c]) s -> came_to rel (c :: s).
Proof.
  intros H1 H2 s1 d s2 E. destruct s1 as [| x s1]; cbn [app] in E.
  - injection E as -> _. now rewrite app_nil_r.
  - injection E as -> E. rewrite <- app_cons_assoc. now apply (H2 s1 d s2).
Qed.

Lemma reached_cons_inv (rel : list string) (c : string) (s : list string) :
  came_to rel (c :: s) -> stage rel c = None /\ came_to (rel ++ [c]) s.
Proof.
  intros H. split.
  - specialize (H [] c s eq_refl). now rewrite app_nil_r in H.
  - intros s1 d s2 E. rewrite app_cons_assoc. apply (H (c :: s1) d s2).
    cbn [app]. now rewrite E.
Qed.

Lemma process_file_decides (rel : list string) (f : string * file_data)
      (st : state) :
  exists r st1,
    process_file a cwd fs gitignore_map rel f st = Ok (note r (rel ++ [fst f]) st1)
    /\ counts st1 = counts st /\ trace st1 = trace st
    /\ visited st1 = visited st.
Proof.
  destruct f as [name d]. unfold process_file. cbn [fst].
  destruct (path_eqb _ _); [now exists OutputFileItself, st |].
  destruct (is_binary_file_returns name d) as [b ->].
  destruct b; [now exists BinaryFile, st |].
  destruct (existsb _ _); [now exists StandardExcludedFile, st |].
  destruct (file_exclude_pattern _ _); [now exists PatternExcludedFile, st |].
  destruct (matches_gitignore _ _ _ _); [now exists GitignoredFile, st |].
  destruct (text d); [| now exists UnreadableFile, st].
  eexists Processed, _. split; [reflexivity |]. now repeat split.
Qed.

Lemma process_files_spec (rel : list string) (files : list (string * file_data))
      (st : state) :
  exists st' delta,
    process_files a cwd fs gitignore_map rel files st = Ok st'
    /\ advances st st' delta []
    /\ (forall e, In e delta ->
                  exists name, In name (map fst files) /\ snd e = rel ++ [name]).
Proof.
  revert st. induction files as [| f files IH]; intros st.
  - exists st, []. split; [reflexivity |]. split; [apply advances_refl |].
    intros e [].
  - cbn [process_files].
    destruct (process_file_decides rel f st) as (r & st1 & -> & C & T & V).
    destruct (IH (note r (rel ++ [fst f]) st1)) as (st' & delta & E & A & H).
    exists st', ((r, rel ++ [fst f]) :: delta). split; [exact E |]. split.
    + change ((r, rel ++ [fst f]) :: delta) with ([(r, rel ++ [fst f])] ++ delta).
      change (@nil (list string)) with (@nil (list string) ++ []).
      eapply advances_trans; [| exact A].
      unfold advances, note. cbn. rewrite C, T, V, app_nil_r. now repeat split.
    + intros e [<- | He].
      * exists (fst f). split; [now left | reflexivity].
      * destruct (H e He) as (name & Hn & Hp). exists name. split; [now right | exact Hp].
Qed.

Lemma descend_cons (dirs rel : list string) (c : string) (child : node)
      (es : list (string * node)) (st : state) :
  descend (walk a cwd fs gitignore_map) dirs rel ((c, child) :: es) st
  = match child with
    | File _ => descend (walk a cwd fs gitignore_map) dirs rel es st
    | _ =>
        if mem c dirs then
          match walk a cwd fs gitignore_map child (rel ++ [c]) st with
          | Ok st' => descend (walk a cwd fs gitignore_map) dirs rel es st'
          | Raise e st' => Raise e st'
          end
        else descend (walk a cwd fs gitignore_map) dirs rel es st
    end.
Proof. reflexivity. Qed.

(** The descent from a directory whose entries all walk as summarised. *)
Lemma descend_summary (dirs rel : list string) (es : list (string * node)) :
  Forall (fun e => walk_summary a cwd fs gitignore_map (snd e)) es ->
  (forall c, mem c dirs = true -> stage rel c = None) ->
  (forall c child, In (c, child) es -> (forall fd, child <> File fd) ->
                   stage rel c = None -> mem c dirs = true) ->
  forall st,
  exists st' delta vis,
    descend (walk a cwd fs gitignore_map) dirs rel es st = Ok st'
    /\ advances st st' delta vis
    /\ (forall e, In e delta ->
          exists c s x, snd e = rel ++ c :: s ++ [x]
                        /\ In c (map fst es) /\ came_to rel (c :: s))
    /\ (forall p, In p vis ->
          exists c s, p = rel ++ c :: s
                      /\ In c (map fst es) /\ came_to rel (c :: s))
    /\ (NoDup (map fst es) ->
        Forall (fun e => well_formed (snd e)) es ->
        forall c child q es' d r,
          find_entry c es = Some child ->
          lookup q child = Some (Dir es') ->
          came_to rel (c :: q) ->
          In d (subdirs es') ->
          stage (rel ++ c :: q) d = Some r ->
          entries_at (rel ++ c :: q ++ [d]) delta = [(r, rel ++ c :: q ++ [d])]).
Proof.
  intros Hall Hkept. induction es as [| [c0 child0] es IH]; intros Hin st.
  - exists st, [], []. split; [reflexivity |]. split; [apply advances_refl |].
    split; [intros ? [] | split; [intros ? [] |]].
    intros _ _ c child q es' d r Hf. discriminate Hf.
  - inversion Hall as [| ? ? H0 Hall']; subst. cbn [snd] in H0.
    assert (Hin' : forall c child, In (c, child) es -> (forall fd, child <> File fd) ->
                                   stage rel c = None -> mem c dirs = true).
    { intros c child Hc. apply Hin. now right. }
    specialize (IH Hall' Hin').
    (* the entry is passed over: a file, or a directory taken out of [dirs] *)
    assert (Skip :
      (forall st, descend (walk a cwd fs gitignore_map) dirs rel ((c0, child0) :: es) st
                  = descend (walk a cwd fs gitignore_map) dirs rel es st) ->
      (forall q es', lookup q child0 = Some (Dir es') -> came_to rel (c0 :: q) -> False) ->
      exists st' delta vis,
        descend (walk a cwd fs gitignore_map) dirs rel ((c0, child0) :: es) st = Ok st'
        /\ advances st st' delta vis
        /\ (forall e, In e delta ->
              exists c s x, snd e = rel ++ c :: s ++ [x]
                            /\ In c (map fst ((c0, child0) :: es)) /\ came_to rel (c :: s))
        /\ (forall p, In p vis ->
              exists c s, p = rel ++ c :: s
                          /\ In c (map fst ((c0, child0) :: es)) /\ came_to rel (c :: s))
        /\ (NoDup (map fst ((c0, child0) :: es)) ->
            Forall (fun e => well_formed (snd e)) ((c0, child0) :: es) ->
            forall c child q es' d r,
              find_entry c ((c0, child0) :: es) = Some child ->
              lookup q child = Some (Dir es') ->
              came_to rel (c :: q) ->
              In d (subdirs es') ->
              stage (rel ++ c :: q) d = Some r ->
              entries_at (rel ++ c :: q ++ [d]) delta = [(r, rel ++ c :: q ++ [d])])).
    { intros Eq Never. rewrite Eq.
      destruct (IH st) as (st' & delta & vis & E & A & He & Hv & Hc).
      exists st', delta, vis. split; [exact E |]. split; [exact A |].
      split; [| split].
      - intros e Hine. destruct (He e Hine) as (c & s & x & P1 & P2 & P3).
        exists c, s, x. split; [exact P1 | split; [now right | exact P3] ].
      - intros p Hp. destruct (Hv p Hp) as (c & s & P1 & P2 & P3).
        exists c, s. split; [exact P1 | split; [now right | exact P3] ].
      - intros ND WF c child q es' d r Hf Hl Hr Hd Hs.
        cbn [map fst] in ND. inversion ND as [| ? ? _ ND']; subst.
        inversion WF as [| ? ? _ WF']; subst.
        cbn [find_entry] in Hf. destruct (String.eqb_spec c c0) as [-> | N].
        + injection Hf as <-. destruct (Never q es' Hl Hr).
        + now apply (Hc ND' WF' c child q es' d r). }
    destruct child0 as [fd | es0 |].
    { apply Skip; [reflexivity |]. intros q es' Hl _. now apply lookup_File in Hl. }
    all: destruct (mem c0 dirs) eqn:M;
      [| apply Skip;
         [ intros st0; rewrite descend_cons, M; reflexivity
         | intros q es' _ Hr; apply reached_cons_inv in Hr; destruct Hr as [Hr _];
           rewrite (Hin c0 _ (or_introl eq_refl)) in M;
           [discriminate M | intros fd; discriminate | exact Hr] ] ].
    all: rewrite descend_cons, M;
      destruct (H0 (rel ++ [c0]) st) as (st1 & d1 & v1 & E1 & A1 & He1 & Hv1 & Hc1);
      rewrite E1;
      destruct (IH st1) as (st2 & d2 & v2 & E2 & A2 & He2 & Hv2 & Hc2);
      exists st2, (d1 ++ d2), (v1 ++ v2);
      (split; [exact E2 |]);
      (split; [exact (advances_trans _ _ _ _ _ _ _ A1 A2) |]);
      pose proof (Hkept c0 M) as K0.
    all: split; [| split].
    all: try (intros e Hine; apply in_app_or in Hine; destruct Hine as [Hine | Hine];
              [ destruct (He1 e Hine) as (s & x & P1 & P2);
                exists c0, s, x; rewrite app_cons_assoc in P1;
                split; [exact P1 | split; [now left | now apply reached_cons] ]
              | destruct (He2 e Hine) as (c & s & x & P1 & P2 & P3);
                exists c, s, x; split; [exact P1 | split; [now right | exact P3] ] ]).
    all: try (intros p Hp; apply in_app_or in Hp; destruct Hp as [Hp | Hp];
              [ destruct (Hv1 p Hp) as (s & P1 & P2);
                exists c0, s; rewrite app_cons_assoc in P1;
                split; [exact P1 | split; [now left | now apply reached_cons] ]
              | destruct (Hv2 p Hp) as (c & s & P1 & P2 & P3);
                exists c, s; split; [exact P1 | split; [now right | exact P3] ] ]).
    all: intros ND WF c child q es' d r Hf Hl Hr Hd Hs;
      cbn [map fst] in ND; inversion ND as [| ? ? Hc0 ND']; subst;
      inversion WF as [| ? ? WF0 WF']; subst; cbn [snd] in WF0;
      cbn [find_entry] in Hf; rewrite entries_at_app;
      destruct (String.eqb_spec c c0) as [-> | N].
    all: try (injection Hf as <-;
              apply reached_cons_inv in Hr; destruct Hr as [_ Hr];
              rewrite <- (app_cons_assoc rel c0 (q ++ [d]));
              rewrite <- (app_cons_assoc rel c0 q) in Hs;
              rewrite (Hc1 WF0 q es' d r Hl Hr Hd Hs);
              rewrite entries_at_none; [reflexivity |];
              intros e Hine E; destruct (He2 e Hine) as (c & s & x & P1 & P2 & _);
              rewrite P1, app_cons_assoc in E; apply app_inv_head in E;
              injection E as -> _; contradiction).
    all: rewrite (Hc2 ND' WF' c child q es' d r Hf Hl Hr Hd Hs);
      rewrite entries_at_none; [reflexivity |];
      intros e Hine E; destruct (He1 e Hine) as (s & x & P1 & _);
      rewrite P1, app_cons_assoc in E; apply app_inv_head in E;
      injection E as E _; congruence.
Qed.

End Walk.

Section WalkSummary.

Variable a : args.
Variable cwd : list string.
Variable fs : node.
Variable gitignore_map : patterns_map.

Local Abbreviation stage := (dir_stage a cwd fs gitignore_map).
Local Abbreviation came_to := (reached a cwd fs gitignore_map).

Lemma walk_Dir (es : list (string * node)) (rel : list string) (st : state) :
  walk a cwd fs gitignore_map (Dir es) rel st
  = let dirs := filter (fun d => kept (stage rel d)) (subdirs es) in
    let st := record_all (pruning_entries a cwd fs gitignore_map rel (subdirs es))
                         (visit rel st) in
    match process_files a cwd fs gitignore_map rel (nondirs es) st with
    | Raise e st' => Raise e st'
    | Ok st' => descend (walk a cwd fs gitignore_map) dirs rel es st'
    end.
Proof. cbn [walk]. now rewrite prune_dirs_spec. Qed.

Lemma kept_mem (rel : list string) (dirs : list string) (c : string) :
  mem c (filter (fun d => kept (stage rel d)) dirs) = true
  <-> In c dirs /\ stage rel c = None.
Proof.
  rewrite mem_In, filter_In. split; intros [H1 H2]; (split; [exact H1 |]).
  - destruct (stage rel c); [discriminate | reflexivity].
  - now rewrite H2.
Qed.

Lemma short_path_differs (rel : list string) (x c : string) (s : list string)
      (y : string) :
  rel ++ [x] <> rel ++ c :: s ++ [y].
Proof.
  intros E. apply app_inv_head in E. injection E as _ E. now destruct s.
Qed.

Lemma walk_summary_all (n : node) : walk_summary a cwd fs gitignore_map n.
Proof.
  induction n as [fd | | es IH] using node_ind'.
  - intros rel st. exists st, [], []. split; [reflexivity |].
    split; [apply advances_refl |]. split; [intros ? [] | split; [intros ? [] |]].
    intros _ q es d r Hl. now apply lookup_File in Hl.
  - intros rel st. exists st, [], []. split; [reflexivity |].
    split; [apply advances_refl |]. split; [intros ? [] | split; [intros ? [] |]].
    intros _ q es d r Hl. destruct q; discriminate Hl.
  - intros rel st. rewrite walk_Dir. cbv zeta.
    set (dirs := filter (fun d => kept (stage rel d)) (subdirs es)).
    set (dp := pruning_entries a cwd fs gitignore_map rel (subdirs es)).
    destruct (process_files_spec a cwd fs gitignore_map rel (nondirs es)
                (record_all dp (visit rel st)))
      as (st_f & df & -> & Af & Hf).
    assert (Hkept : forall c, mem c dirs = true -> stage rel c = None).
    { intros c M. now apply kept_mem in M. }
    assert (Hin : forall c child, In (c, child) es -> (forall fd, child <> File fd) ->
                                  stage rel c = None -> mem c dirs = true).
    { intros c child Hc Hn Hs. apply kept_mem. split; [| exact Hs].
      apply subdirs_In. now exists child. }
    destruct (descend_summary a cwd fs gitignore_map dirs rel es IH Hkept Hin st_f)
      as (st_d & dd & vd & Ed & Ad & Hed & Hvd & Hcd).
    exists st_d, (dp ++ df ++ dd), ([rel] ++ [] ++ vd).
    split; [exact Ed |]. split.
    { eapply advances_trans; [| eapply advances_trans; [exact Af | exact Ad] ].
      unfold advances, record_all, visit. cbn. now repeat split. }
    assert (Hp : forall e, In e dp -> exists d, In d (subdirs es) /\ snd e = rel ++ [d])
      by apply pruning_entries_path.
    split; [| split].
    + intros e He. apply in_app_or in He. destruct He as [He | He];
        [| apply in_app_or in He; destruct He as [He | He] ].
      * destruct (Hp e He) as (d & _ & E). exists [], d. split; [exact E | apply reached_nil].
      * destruct (Hf e He) as (x & _ & E). exists [], x. split; [exact E | apply reached_nil].
      * destruct (Hed e He) as (c & s & x & E & _ & R). exists (c :: s), x. now split.
    + intros p [<- | Hp'].
      * exists []. split; [now rewrite app_nil_r | apply reached_nil].
      * destruct (Hvd p Hp') as (c & s & E & _ & R). exists (c :: s). now split.
    + intros WF q es' d r Hl Hr Hd Hs.
      apply well_formed_Dir in WF. destruct WF as [ND WF].
      rewrite !entries_at_app.
      destruct q as [| c q].
      * (* the removed directory is listed here *)
        cbn [lookup] in Hl. injection Hl as <-. cbn [app] in *.
        rewrite app_nil_r in Hs.
        unfold dp. rewrite (pruning_entries_at a cwd fs gitignore_map rel
                              (subdirs es) d (NoDup_subdirs es ND)).
        assert (M : mem d (subdirs es) = true) by now apply mem_In.
        rewrite M. unfold entry_of. rewrite Hs.
        rewrite (entries_at_none _ df), (entries_at_none _ dd); [reflexivity | |].
        -- intros e He E. destruct (Hed e He) as (c & s & x & P & _).
           rewrite P in E. symmetry in E. now apply short_path_differs in E.
        -- intros e He E. destruct (Hf e He) as (x & Hx & P).
           rewrite P in E. apply app_inv_head in E. injection E as ->.
           apply nondirs_In in Hx. destruct Hx as [fd Hx].
           apply subdirs_In in Hd. destruct Hd as (child & Hc & Hn).
           apply (Hn fd). exact (NoDup_names_functional es d _ _ ND Hc Hx).
      * (* the removed directory lies further down *)
        apply lookup_Dir_cons in Hl. destruct Hl as (child & Hfind & Hl).
        rewrite (entries_at_none _ dp), (entries_at_none _ df).
        -- cbn [app]. now apply (Hcd ND WF c child q es' d r).
        -- intros e He E. destruct (Hf e He) as (x & _ & P).
           rewrite P in E. cbn [app] in E. now apply short_path_differs in E.
        -- intros e He E. destruct (Hp e He) as (x & _ & P).
           rewrite P in E. cbn [app] in E. now apply short_path_differs in E.
Qed.

End WalkSummary.

Lemma distinct_NoDup (l : list string) : distinct l = true -> NoDup l.
Proof.
  induction l as [| x l IH]; [constructor |].
  cbn [distinct]. intros H. apply andb_true_iff in H. destruct H as [H1 H2].
  constructor; [| now apply IH].
  intros Hin. apply mem_In in Hin. rewrite Hin in H1. discriminate H1.
Qed.

Lemma dir_stage_cases (a : args) (cwd : list string) (fs : node)
      (gitignore_map : patterns_map) (rel : list string) (d : string)
      (r : decision) :
  dir_stage a cwd fs gitignore_map rel d = Some r ->
  (r = StandardExcludedDir /\ std_excluded a d = true)
  \/ (r = PatternExcludedDir /\ std_excluded a d = false
      /\ dir_exclude_pattern (exclude_patterns a) (posix (rel ++ [d])) <> None)
  \/ (r = GitignoredDir /\ std_excluded a d = false
      /\ dir_exclude_pattern (exclude_patterns a) (posix (rel ++ [d])) = None
      /\ matches_gitignore cwd fs (posix (rel ++ [d])) gitignore_map = true).
Proof.
  unfold dir_stage, late_stage.
  destruct (std_excluded a d); [intros E; injection E as <-; now left |].
  destruct (dir_exclude_pattern _ _) eqn:P.
  - intros E. injection E as <-. right. left. repeat split. discriminate.
  - destruct (matches_gitignore _ _ _ _) eqn:G; [| discriminate].
    intros E. injection E as <-. right. right. now repeat split.
Qed.

(** C6.  In a well-formed tree, take a directory [q] the walk comes down
    to and a subdirectory [d] of it that one of the three tests removes
    (the name test, if [d] is in the literal-exclude set).  Then the walk
    returns; its trace holds exactly one entry for [q/d], the
    directory-level skip of that test; it holds no entry, neither a dumped
    file nor any skip, for a path below [q/d]; the counters are those of
    the trace entries, so none is incremented for a descendant; and no
    directory at or below [q/d] is visited. *)
Theorem pruned_subtree (a : args) (cwd : list string) (fs : node)
        (gitignore_map : patterns_map) (top : node) (st : state)
        (q : list string) (es : list (string * node)) (d : string)
        (r : decision) :
  well_formed top ->
  lookup q top = Some (Dir es) ->
  reached a cwd fs gitignore_map [] q ->
  In d (subdirs es) ->
  dir_stage a cwd fs gitignore_map q d = Some r ->
  (mem d (exclude_dirs a) = true -> r = StandardExcludedDir)
  /\ (r = StandardExcludedDir \/ r = PatternExcludedDir \/ r = GitignoredDir)
  /\ exists st' delta vis,
       walk a cwd fs gitignore_map top [] st = Ok st'
       /\ trace st' = trace st ++ delta
       /\ visited st' = visited st ++ vis
       /\ counts st' = bump_all (map fst delta) (counts st)
       /\ entries_at (q ++ [d]) delta = [(r, q ++ [d])]
       /\ (forall e, In e delta -> ~ strictly_below (q ++ [d]) (snd e))
       /\ (forall p, In p vis -> ~ below (q ++ [d]) p).
Proof.
  intros WF Hl Hr Hd Hs. split; [| split].
  - intros M. unfold dir_stage, std_excluded in Hs. rewrite M in Hs.
    cbn [orb] in Hs. congruence.
  - destruct (dir_stage_cases _ _ _ _ _ _ _ Hs) as [[-> _] | [[-> _] | [-> _]]]; auto.
  - destruct (walk_summary_all a cwd fs gitignore_map top [] st)
      as (st' & delta & vis & E & (T & V & C) & He & Hv & Hc).
    exists st', delta, vis.
    split; [exact E |]. split; [exact T |]. split; [exact V |]. split; [exact C |].
    split; [| split].
    + exact (Hc WF q es d r Hl Hr Hd Hs).
    + intros e Hin (x & s & Ex).
      destruct (He e Hin) as (s' & x' & Es & R). cbn [app] in Es.
      rewrite Es in Ex.
      destruct (exists_last (l := x :: s)) as (t & y & Et); [discriminate |].
      rewrite Et, app_assoc in Ex.
      apply app_inj_tail in Ex. destruct Ex as [Ex _].
      rewrite app_cons_assoc in Ex.
      specialize (R q d t Ex). cbn [app] in R. congruence.
    + intros p Hin [t Et].
      destruct (Hv p Hin) as (s & Es & R). cbn [app] in Es.
      rewrite Es, app_cons_assoc in Et.
      specialize (R q d t Et). cbn [app] in R. congruence.
Qed.

Lemma well_formedb_sound (n : node) : well_formedb n = true -> well_formed n.
Proof.
  induction n as [fd | | es IH] using node_ind'; try (intros _; exact I).
  cbn [well_formedb]. intros H. apply andb_true_iff in H. destruct H as [H1 H2].
  apply well_formed_Dir. split; [now apply distinct_NoDup |].
  induction IH as [| e es He Hes IHes]; [constructor |].
  apply andb_true_iff in H2. destruct H2 as [H2 H3].
  constructor; [now apply He |]. apply IHes; [| exact H3].
  cbn [map distinct] in H1. apply andb_true_iff in H1. apply H1.
Qed.

Lemma pruned_subtree_witness :
  well_formed (Dir demo_entries)
  /\ In "node_modules" (subdirs demo_entries)
  /\ dir_stage (demo_args true) ["w"; "proj"] demo_fs demo_map [] "node_modules"
     = Some StandardExcludedDir
  /\ exists st' delta vis,
       walk (demo_args true) ["w"; "proj"] demo_fs demo_map (Dir demo_entries) []
            init_state = Ok st'
       /\ trace st' = trace init_state ++ delta
       /\ visited st' = visited init_state ++ vis
       /\ counts st' = bump_all (map fst delta) (counts init_state)
       /\ entries_at ([] ++ ["node_modules"]) delta
          = [(StandardExcludedDir, [] ++ ["node_modules"])]
       /\ (forall e, In e delta -> ~ strictly_below ([] ++ ["node_modules"]) (snd e))
       /\ (forall p, In p vis -> ~ below ([] ++ ["node_modules"]) p).
Proof.
  assert (WF : well_formed (Dir demo_entries))
    by (apply well_formedb_sound; reflexivity).
  assert (Hd : In "node_modules" (subdirs demo_entries))
    by (cbn; right; left; reflexivity).
  assert (Hs : dir_stage (demo_args true) ["w"; "proj"] demo_fs demo_map []
                         "node_modules" = Some StandardExcludedDir)
    by reflexivity.
  split; [exact WF |]. split; [exact Hd |]. split; [exact Hs |].
  apply (pruned_subtree (demo_args true) ["w"; "proj"] demo_fs demo_map
           (Dir demo_entries) init_state [] demo_entries "node_modules"
           StandardExcludedDir WF eq_refl).
  - intros s1 d s2 E. now destruct s1.
  - exact Hd.
  - exact Hs.
Defined.

(* ================================================================== *)
(** * Extensions: binary denylist and language hints *)
(* ================================================================== *)

Lemma lower_char_dot (c : ascii) :
  Ascii.eqb "." (Py.lower_char c) = Ascii.eqb "." c.
Proof.
  destruct c as [b0 b1 b2 b3 b4 b5 b6 b7].
  destruct b0, b1, b2, b3, b4, b5, b6, b7; reflexivity.
Qed.

Lemma lower_char_not_D (c : ascii) : Py.lower_char c <> "D"%char.
Proof.
  destruct c as [b0 b1 b2 b3 b4 b5 b6 b7].
  destruct b0, b1, b2, b3, b4, b5, b6, b7; discriminate.
Qed.

Lemma lower_contains_dot (s : string) :
  Py.contains_char "." (Py.lower s) = Py.contains_char "." s.
Proof.
  induction s as [| c s IH]; [reflexivity |].
  cbn [Py.lower Py.contains_char]. now rewrite lower_char_dot, IH.
Qed.

Lemma dotted_cons (c : ascii) (s : string) :
  dotted (String c s)
  = Ascii.eqb "." c && (negb (String.eqb s "") && negb (Py.contains_char "." s)).
Proof.
  destruct c as [b0 b1 b2 b3 b4 b5 b6 b7].
  destruct b0, b1, b2, b3, b4, b5, b6, b7; reflexivity.
Qed.

Lemma lower_dotted (s : string) : dotted (Py.lower s) = dotted s.
Proof.
  destruct s as [| c s]; [reflexivity |]. cbn [Py.lower].
  rewrite !dotted_cons, lower_char_dot, lower_contains_dot. now destruct s.
Qed.

Lemma from_last_dot_none (e : string) :
  Py.contains_char "." e = false -> Path.from_last_dot e = None.
Proof.
  induction e as [| c e IH]; [reflexivity |].
  cbn [Py.contains_char Path.from_last_dot]. intros H.
  apply orb_false_iff in H. destruct H as [H1 H2].
  rewrite (IH H2). rewrite Ascii.eqb_sym in H1. now rewrite H1.
Qed.

Lemma dotted_inv (tail : string) :
  dotted tail = true ->
  exists e, tail = String "." e /\ e <> EmptyString /\ Py.contains_char "." e = false.
Proof.
  destruct tail as [| d e]; [discriminate |]. rewrite dotted_cons. intros D.
  apply andb_true_iff in D. destruct D as [D1 D]. apply Ascii.eqb_eq in D1. subst d.
  apply andb_true_iff in D. destruct D as [D2 D3].
  exists e. split; [reflexivity |]. split.
  - intros ->. discriminate D2.
  - now apply negb_true_iff in D3.
Qed.

Lemma from_last_dot_app (s tail : string) :
  dotted tail = true -> Path.from_last_dot (s ++ tail) = Some tail.
Proof.
  intros D. destruct (dotted_inv tail D) as (e & -> & _ & He).
  induction s as [| c s IH].
  - cbn [append Path.from_last_dot]. now rewrite (from_last_dot_none e He).
  - cbn [append Path.from_last_dot]. now rewrite IH.
Qed.

Lemma dotted_length (tail : string) :
  dotted tail = true -> (1 <? String.length tail) = true.
Proof.
  intros D. destruct (dotted_inv tail D) as (e & -> & Hne & _).
  destruct e; [contradiction | reflexivity].
Qed.

Lemma suffix_dotted (stem tail : string) :
  stem <> EmptyString -> dotted tail = true -> Path.suffix (stem ++ tail) = tail.
Proof.
  intros Hs D. destruct stem as [| c stem]; [contradiction |].
  cbn [append Path.suffix]. now rewrite (from_last_dot_app stem tail D), dotted_length.
Qed.

Lemma suffix_bare_dotted (tail : string) : dotted tail = true -> Path.suffix tail = "".
Proof.
  intros D. destruct (dotted_inv tail D) as (e & -> & _ & He).
  cbn [Path.suffix]. now rewrite (from_last_dot_none e He).
Qed.

Lemma BINARY_EXTENSIONS_dotted (ext : string) :
  In ext BINARY_EXTENSIONS -> dotted ext = true.
Proof.
  assert (H : forallb dotted BINARY_EXTENSIONS = true) by reflexivity.
  rewrite forallb_forall in H. apply H.
Qed.

(** X1.  A file whose name is a non-empty stem followed by a denylisted
    extension, in any mix of upper and lower case, is binary whatever it
    holds and whether or not it can be read.  A file whose whole name is
    such an extension has no suffix for [pathlib], and is not binary by
    extension. *)
Theorem denylisted_extension_is_binary (stem tail : string) (d : file_data) :
  stem <> EmptyString ->
  In (Py.lower tail) BINARY_EXTENSIONS ->
  is_binary_file (stem ++ tail) d = Ok true /\ not_denylisted tail.
Proof.
  intros Hs Hin.
  assert (D : dotted tail = true)
    by (rewrite <- lower_dotted; now apply BINARY_EXTENSIONS_dotted).
  split.
  - unfold is_binary_file. rewrite (suffix_dotted stem tail Hs D).
    apply mem_In in Hin. now rewrite Hin.
  - unfold not_denylisted. now rewrite (suffix_bare_dotted tail D).
Qed.

Lemma denylisted_extension_is_binary_witness :
  is_binary_file ("Holiday" ++ ".JPG") (mk_file None None) = Ok true
  /\ not_denylisted ".JPG".
Proof.
  apply (denylisted_extension_is_binary "Holiday" ".JPG" (mk_file None None)).
  - discriminate.
  - vm_compute. now left.
Defined.

Lemma has_null_text (chunk : list byte) :
  Forall (fun b => text_chars b = true) chunk -> has_null chunk = false.
Proof.
  induction 1 as [| b chunk Hb _ IH]; [reflexivity |].
  cbn [has_null existsb]. fold (has_null chunk). rewrite IH, orb_false_r.
  destruct b; try reflexivity. discriminate Hb.
Qed.

Lemma non_text_none (chunk : list byte) :
  Forall (fun b => text_chars b = true) chunk -> non_text chunk = [].
Proof.
  induction 1 as [| b chunk Hb _ IH]; [reflexivity |].
  unfold non_text in *. cbn [filter]. now rewrite Hb.
Qed.

(** X2.  A readable file whose extension is not denylisted and whose first
    1024 bytes are all text characters (printable ASCII, the listed control
    characters, any byte from 0x80 up) is never binary, however long it is
    and whatever follows the sample. *)
Theorem text_sample_is_not_binary (name : string) (d : file_data)
        (content : list byte) :
  not_denylisted name ->
  raw d = Some content ->
  Forall (fun b => text_chars b = true) (firstn 1024 content) ->
  is_binary_file name d = Ok false.
Proof.
  intros Hext Hraw Htext.
  rewrite (is_binary_file_content name d content Hext Hraw).
  unfold content_verdict.
  rewrite (has_null_text _ Htext).
  fold (non_text (firstn 1024 content)). rewrite (non_text_none _ Htext).
  cbn [orb List.length]. rewrite Nat.mul_0_r. reflexivity.
Qed.

Lemma text_sample_is_not_binary_witness :
  is_binary_file "notes.md" (mk_file (Some [x48; xc3; xa9; x0a]) None) = Ok false.
Proof.
  apply (text_sample_is_not_binary "notes.md" _ [x48; xc3; xa9; x0a]).
  - reflexivity.
  - reflexivity.
  - repeat constructor.
Defined.

Lemma LANGUAGE_MAP_keys (k v : string) :
  In (k, v) LANGUAGE_MAP ->
  assoc k LANGUAGE_MAP = Some v
  /\ get_language_hint k = v
  /\ (dotted k = true \/ k = "Dockerfile"%string).
Proof.
  assert (H : forallb (fun kv => match assoc (fst kv) LANGUAGE_MAP with
                                 | Some v => String.eqb v (snd kv)
                                 | None => false
                                 end
                                 && String.eqb (get_language_hint (fst kv)) (snd kv)
                                 && (dotted (fst kv) || String.eqb (fst kv) "Dockerfile"))
                       LANGUAGE_MAP = true) by reflexivity.
  rewrite forallb_forall in H. intros Hin. specialize (H (k, v) Hin). cbn [fst snd] in H.
  apply andb_true_iff in H. destruct H as [H H3].
  apply andb_true_iff in H. destruct H as [H1 H2].
  split; [| split].
  - destruct (assoc k LANGUAGE_MAP); [| discriminate]. apply String.eqb_eq in H1. now subst.
  - now apply String.eqb_eq.
  - apply orb_true_iff in H3. destruct H3 as [H3 | H3]; [now left |].
    right. now apply String.eqb_eq.
Qed.

(** X3.  The language hint of a file named by a non-empty stem and a
    mapped extension, in any mix of upper and lower case, is the tag of
    that extension; and every key of the table, taken as a whole file
    name, gets its own tag ([Dockerfile], and also names such as [.py] or
    [.gitignore], which have no suffix). *)
Theorem language_hint_of_extension (stem tail v : string) :
  stem <> EmptyString ->
  In (Py.lower tail, v) LANGUAGE_MAP ->
  get_language_hint (stem ++ tail) = v
  /\ (forall k w, In (k, w) LANGUAGE_MAP -> get_language_hint k = w).
Proof.
  intros Hs Hin. split; [| intros k w Hk; now apply LANGUAGE_MAP_keys].
  destruct (LANGUAGE_MAP_keys _ _ Hin) as (A & _ & [D | E]).
  - rewrite lower_dotted in D. unfold get_language_hint.
    now rewrite (suffix_dotted stem tail Hs D), A.
  - destruct tail as [| c tail]; [discriminate E |]. cbn [Py.lower] in E.
    injection E as E _. now apply lower_char_not_D in E.
Qed.

Lemma language_hint_of_extension_witness :
  get_language_hint ("Main" ++ ".PY") = "python"
  /\ (forall k w, In (k, w) LANGUAGE_MAP -> get_language_hint k = w).
Proof.
  apply (language_hint_of_extension "Main" ".PY" "python").
  - discriminate.
  - vm_compute. now left.
Defined.

(* ================================================================== *)
(** * Ignore files: writing and reading back *)
(* ================================================================== *)

Lemma lstrip_with_snoc (p : ascii -> bool) (s : string) (c : ascii) :
  p c = true ->
  Py.lstrip_with p (s ++ String c EmptyString)
  = match Py.lstrip_with p s with
    | EmptyString => EmptyString
    | u => (u ++ String c EmptyString)%string
    end.
Proof.
  intros Hc. induction s as [| a s IH]; cbn [append Py.lstrip_with].
  - now rewrite Hc.
  - destruct (p a); [exact IH | reflexivity].
Qed.

Lemma rstrip_with_snoc (p : ascii -> bool) (s : string) (c : ascii) :
  p c = true ->
  Py.rstrip_with p (s ++ String c EmptyString) = Py.rstrip_with p s.
Proof.
  intros Hc. induction s as [| a s IH]; cbn [append Py.rstrip_with].
  - now rewrite Hc.
  - now rewrite IH.
Qed.

Lemma strip_newline (s : string) : Py.strip (s ++ nl) = Py.strip s.
Proof.
  unfold Py.strip, nl. rewrite lstrip_with_snoc by reflexivity.
  destruct (Py.lstrip_with Py.is_space s) as [| a u] eqn:E; [reflexivity |].
  now rewrite rstrip_with_snoc.
Qed.

Lemma is_rule_newline (s : string) : is_rule (s ++ nl) = is_rule s.
Proof. unfold is_rule, is_blank, is_comment. now rewrite strip_newline. Qed.

Lemma file_lines_line (p rest : string) :
  Py.contains_char "010" p = false ->
  Py.file_lines (p ++ nl ++ rest) = (p ++ nl)%string :: Py.file_lines rest.
Proof.
  intros H. induction p as [| c p IH]; [reflexivity |].
  cbn [Py.contains_char] in H. apply orb_false_iff in H. destruct H as [H1 H2].
  cbn [append Py.file_lines]. rewrite Ascii.eqb_sym in H1. rewrite H1.
  now rewrite (IH H2).
Qed.

(** X4.  Rules written to an ignore file one per line are read back as
    they were by the Markdown dump, provided each is neither blank nor a
    comment and has no whitespace around it and no newline in it. *)
Theorem parse_gitignore_round_trip (fs : node) (path : list string)
        (patterns : list string) :
  forallb plain_rule patterns = true ->
  read_text fs path = Some (unlines patterns) ->
  parse_gitignore fs path = patterns.
Proof.
  intros H R. unfold parse_gitignore.
  assert (F : is_file fs path = true).
  { unfold read_text in R. unfold is_file.
    destruct (lookup path fs) as [[] |]; try discriminate R; reflexivity. }
  rewrite F, R. cbn [negb]. clear R F.
  unfold parse_text. rewrite parse_lines_filter. cbn [app].
  induction patterns as [| p ps IH]; [reflexivity |].
  cbn [forallb] in H. apply andb_true_iff in H. destruct H as [Hp Hps].
  unfold plain_rule in Hp.
  apply andb_true_iff in Hp. destruct Hp as [Hp H3].
  apply andb_true_iff in Hp. destruct Hp as [H1 H2].
  apply negb_true_iff in H3. apply String.eqb_eq in H2.
  cbn [unlines]. rewrite (file_lines_line p _ H3). cbn [filter].
  rewrite is_rule_newline, H1. cbn [map]. rewrite strip_newline, H2.
  now rewrite (IH Hps).
Qed.

Lemma parse_gitignore_round_trip_witness :
  parse_gitignore
    (Dir [(".gitignore", text_file (unlines ["*.log"; "build/"; "!keep.log"]))])
    [".gitignore"]
  = ["*.log"; "build/"; "!keep.log"].
Proof.
  apply (parse_gitignore_round_trip _ [".gitignore"] ["*.log"; "build/"; "!keep.log"]);
    reflexivity.
Defined.

Lemma splitlines_line (p rest : string) :
  no_linebreak p = true ->
  Py.splitlines (p ++ nl ++ rest) = p :: Py.splitlines rest.
Proof.
  intros H. induction p as [| c p IH].
  - cbn [append nl Py.splitlines]. now destruct rest.
  - cbn [no_linebreak] in H. apply andb_true_iff in H. destruct H as [H1 H2].
    apply negb_true_iff in H1.
    cbn [append Py.splitlines]. rewrite H1. now rewrite (IH H2).
Qed.

(** X5.  Rules written to an ignore file one per line are read back as
    they were by the tree printer, provided each is neither empty nor a
    comment and has no line boundary in it; whitespace around a rule is
    kept. *)
Theorem load_gitignore_patterns_round_trip (fs : node) (path : list string)
        (patterns : list string) :
  forallb plain_line patterns = true ->
  read_text fs path = Some (unlines patterns) ->
  tree_gitignore.load_gitignore_patterns fs (Some path) = Some patterns.
Proof.
  intros H R. unfold tree_gitignore.load_gitignore_patterns. rewrite R. f_equal.
  clear R. unfold tree_gitignore.load_lines.
  induction patterns as [| p ps IH]; [reflexivity |].
  cbn [forallb] in H. apply andb_true_iff in H. destruct H as [Hp Hps].
  unfold plain_line in Hp.
  apply andb_true_iff in Hp. destruct Hp as [Hp H3].
  apply andb_true_iff in Hp. destruct Hp as [H1 H2].
  cbn [unlines]. rewrite (splitlines_line p _ H3). cbn [filter].
  unfold is_comment in H2. rewrite H1, H2. cbn [andb]. now rewrite (IH Hps).
Qed.

Lemma load_gitignore_patterns_round_trip_witness :
  tree_gitignore.load_gitignore_patterns
    (Dir [(".gitignore", text_file (unlines [" *.log "; "build/"]))])
    (Some [".gitignore"])
  = Some [" *.log "; "build/"].
Proof.
  apply (load_gitignore_patterns_round_trip _ [".gitignore"] [" *.log "; "build/"]);
    reflexivity.
Defined.

(* ================================================================== *)
(** * Scopes: the ignore files above a directory *)
(* ================================================================== *)

Lemma ancestors_snoc (l : list string) (x : string) :
  ancestors (l ++ [x]) = (l ++ [x]) :: ancestors l.
Proof.
  unfold ancestors. rewrite length_app. cbn [List.length].
  replace (S (List.length l + 1)) with (S (S (List.length l))) by lia.
  rewrite (seq_S (S (List.length l)) 0), rev_app_distr. cbn [rev app map plus].
  f_equal.
  - replace (S (List.length l)) with (List.length (l ++ [x]))
      by (rewrite length_app; cbn; lia).
    apply firstn_all.
  - apply map_ext_in. intros k Hk. apply in_rev, in_seq in Hk.
    rewrite firstn_app. replace (k - List.length l) with 0 by lia.
    cbn [firstn]. now rewrite app_nil_r.
Qed.

Lemma In_ancestors (p k : list string) :
  In k (ancestors p) <-> exists n, n <= List.length p /\ k = firstn n p.
Proof.
  unfold ancestors. rewrite in_map_iff. split.
  - intros (n & <- & Hn). apply in_rev, in_seq in Hn. exists n. split; [lia | reflexivity].
  - intros (n & Hn & ->). exists n. split; [reflexivity |].
    apply -> in_rev. apply in_seq. lia.
Qed.

Lemma NoDup_ancestors (p : list string) : NoDup (ancestors p).
Proof.
  apply (NoDup_map_inv (@List.length string)).
  unfold ancestors. rewrite map_map.
  rewrite (map_ext_in _ (fun k => k)).
  - rewrite map_id. apply NoDup_rev, seq_NoDup.
  - intros k Hk. apply in_rev, in_seq in Hk. rewrite length_firstn. lia.
Qed.

Lemma has_key_false (k : list string) (m : patterns_map) :
  (forall e, In e m -> List.length k < List.length (fst e)) -> has_key k m = false.
Proof.
  intros H. unfold has_key. destruct (existsb _ m) eqn:E; [| reflexivity].
  apply existsb_exists in E. destruct E as (e & He & Ee).
  apply path_eqb_eq in Ee. specialize (H e He). rewrite Ee in H. lia.
Qed.

Lemma scope_entry_key (fs : node) (d : list string) (e : list string * list string) :
  In e (scope_entry fs d) ->
  fst e = d /\ is_file fs (d ++ [".gitignore"]) = true
  /\ snd e = parse_gitignore fs (d ++ [".gitignore"]) /\ snd e <> [].
Proof.
  unfold scope_entry. destruct (is_file fs _); [| contradiction].
  destruct (parse_gitignore fs _) as [| p ps]; [contradiction |].
  intros [<- | []]. cbn. repeat split. discriminate.
Qed.

Lemma climb_S (fs : node) (n : nat) (current_dir : list string)
      (all_patterns : patterns_map) :
  current_dir <> [] ->
  climb fs (S n) current_dir all_patterns
  = climb fs n (Path.parent current_dir)
      (if is_file fs (current_dir ++ [".gitignore"]) then
         if negb (has_key current_dir all_patterns) then
           match parse_gitignore fs (current_dir ++ [".gitignore"]) with
           | [] => all_patterns
           | patterns => all_patterns ++ [(current_dir, patterns)]
           end
         else all_patterns
       else all_patterns).
Proof. destruct current_dir; [contradiction | reflexivity]. Qed.

Lemma find_from_S (fs : node) (n : nat) (current_path : list string) :
  current_path <> [] ->
  tree_gitignore.find_from fs (S n) current_path
  = if is_file fs (current_path ++ [".gitignore"])
    then Some (current_path ++ [".gitignore"])
    else tree_gitignore.find_from fs n (Path.parent current_path).
Proof. destruct current_path; [contradiction | reflexivity]. Qed.

Lemma climb_spec (fs : node) (n : nat) :
  forall current_dir all_patterns,
    List.length current_dir = n ->
    (forall e, In e all_patterns -> n < List.length (fst e)) ->
    climb fs n current_dir all_patterns
    = all_patterns ++ flat_map (scope_entry fs) (ancestors current_dir).
Proof.
  induction n as [| n IH]; intros cur acc Hlen Hacc.
  - destruct cur; [| discriminate Hlen]. cbn [climb app].
    rewrite (has_key_false [] acc) by (intros e He; apply (Hacc e He)).
    cbn [negb ancestors flat_map]. unfold ancestors, scope_entry. cbn.
    destruct (is_file fs [".gitignore"]); [| now rewrite app_nil_r].
    destruct (parse_gitignore fs [".gitignore"]); now rewrite ?app_nil_r.
  - destruct (exists_last (l := cur)) as (l & x & ->);
      [intros ->; discriminate Hlen |].
    rewrite length_app in Hlen. cbn in Hlen.
    assert (Hl : List.length l = n) by lia.
    assert (Hk : has_key (l ++ [x]) acc = false).
    { apply has_key_false. intros e He. specialize (Hacc e He).
      rewrite length_app. cbn. lia. }
    rewrite ancestors_snoc. cbn [flat_map].
    rewrite climb_S by (now destruct l). rewrite Hk. cbn [negb].
    unfold Path.parent. rewrite removelast_last.
    rewrite IH.
    + unfold scope_entry at 2.
      destruct (is_file fs ((l ++ [x]) ++ [".gitignore"])); [| reflexivity].
      destruct (parse_gitignore fs ((l ++ [x]) ++ [".gitignore"]));
        [reflexivity | now rewrite <- app_assoc].
    + exact Hl.
    + intros e He.
      assert (He' : In e (acc ++ scope_entry fs (l ++ [x]))).
      { unfold scope_entry.
        destruct (is_file fs ((l ++ [x]) ++ [".gitignore"])); [| now rewrite app_nil_r].
        destruct (parse_gitignore fs ((l ++ [x]) ++ [".gitignore"]));
          [now rewrite app_nil_r | exact He]. }
      apply in_app_or in He'. destruct He' as [He' | He'].
      * specialize (Hacc e He'). lia.
      * apply scope_entry_key in He'. destruct He' as [-> _].
        rewrite length_app. cbn. lia.
Qed.

Lemma get_gitignore_patterns_closed (fs : node) (directory : list string) :
  get_gitignore_patterns fs directory
  = flat_map (scope_entry fs) (ancestors directory).
Proof.
  unfold get_gitignore_patterns.
  rewrite climb_spec; [reflexivity | reflexivity | intros e []].
Qed.

(** X6.  The map of [get_gitignore_patterns] holds exactly the directory
    itself and the directories above it that have an ignore file with at
    least one rule, each once and with the rules of that file. *)
Theorem gitignore_map_scopes (fs : node) (directory : list string) :
  (forall k patterns,
      In (k, patterns) (get_gitignore_patterns fs directory)
      <-> (exists n, n <= List.length directory /\ k = firstn n directory)
          /\ is_file fs (k ++ [".gitignore"]) = true
          /\ patterns = parse_gitignore fs (k ++ [".gitignore"])
          /\ patterns <> [])
  /\ NoDup (map fst (get_gitignore_patterns fs directory)).
Proof.
  rewrite get_gitignore_patterns_closed. split.
  - intros k ps. rewrite in_flat_map. split.
    + intros (d & Hd & He). apply scope_entry_key in He. cbn [fst snd] in He.
      destruct He as (-> & F & P & N). apply In_ancestors in Hd. now repeat split.
    + intros (Hk & F & -> & N). exists k. split; [now apply In_ancestors |].
      unfold scope_entry. rewrite F.
      destruct (parse_gitignore fs (k ++ [".gitignore"])); [contradiction | now left].
  - pose proof (NoDup_ancestors directory) as ND.
    induction ND as [| d l Hd ND IH]; [constructor |].
    cbn [flat_map]. rewrite map_app.
    assert (Hl : forall k, In k (map fst (flat_map (scope_entry fs) l)) -> In k l).
    { intros k Hk. apply in_map_iff in Hk. destruct Hk as (e & <- & He).
      apply in_flat_map in He. destruct He as (d' & Hd' & He).
      apply scope_entry_key in He. destruct He as [-> _]. exact Hd'. }
    unfold scope_entry at 1. destruct (is_file fs (d ++ [".gitignore"])); [| exact IH].
    destruct (parse_gitignore fs (d ++ [".gitignore"])); [exact IH |].
    cbn [map fst app]. constructor; [| exact IH].
    intros Hin. apply Hd. now apply Hl.
Qed.

Lemma strip_prefix_firstn (k : nat) (l : list string) :
  Path.strip_prefix (firstn k l) l = Some (skipn k l).
Proof.
  revert l. induction k as [| k IH]; intros [| x l]; try reflexivity.
  cbn [firstn skipn Path.strip_prefix]. now rewrite String.eqb_refl.
Qed.

Lemma find_from_spec (fs : node) (n : nat) :
  forall current_path,
    List.length current_path = n ->
    match tree_gitignore.find_from fs n current_path with
    | Some p =>
        exists k, k <= n /\ p = firstn k current_path ++ [".gitignore"]
                  /\ is_file fs p = true
                  /\ forall j, k < j <= n ->
                       is_file fs (firstn j current_path ++ [".gitignore"]) = false
    | None =>
        forall j, j <= n ->
          is_file fs (firstn j current_path ++ [".gitignore"]) = false
    end.
Proof.
  induction n as [| n IH]; intros cur Hlen.
  - destruct cur; [| discriminate Hlen]. cbn [tree_gitignore.find_from app].
    destruct (is_file fs [".gitignore"]) eqn:F.
    + exists 0. split; [lia |]. split; [reflexivity |]. split; [exact F |].
      intros j Hj. lia.
    + intros j Hj. replace j with 0 by lia. exact F.
  - destruct (exists_last (l := cur)) as (l & x & ->);
      [intros ->; discriminate Hlen |].
    rewrite length_app in Hlen. cbn in Hlen.
    assert (Hl : List.length l = n) by lia.
    assert (Hall : firstn (S n) (l ++ [x]) = l ++ [x]).
    { replace (S n) with (List.length (l ++ [x])) by (rewrite length_app; cbn; lia).
      apply firstn_all. }
    assert (Hlow : forall j, j <= n -> firstn j (l ++ [x]) = firstn j l).
    { intros j Hj. rewrite firstn_app. replace (j - List.length l) with 0 by lia.
      cbn [firstn]. now rewrite app_nil_r. }
    rewrite find_from_S by (now destruct l).
    destruct (is_file fs ((l ++ [x]) ++ [".gitignore"])) eqn:F.
    + exists (S n). rewrite Hall. split; [lia |]. split; [reflexivity |].
      split; [exact F |]. intros j Hj. lia.
    + unfold Path.parent. rewrite removelast_last.
      specialize (IH l Hl). destruct (tree_gitignore.find_from fs n l) as [p |].
      * destruct IH as (k & Hk & -> & Fp & Hno). exists k.
        split; [lia |]. split; [now rewrite Hlow |]. split; [exact Fp |].
        intros j Hj. destruct (Nat.eq_dec j (S n)) as [-> | Hne].
        -- now rewrite Hall.
        -- rewrite Hlow by lia. apply Hno. lia.
      * intros j Hj. destruct (Nat.eq_dec j (S n)) as [-> | Hne].
        -- now rewrite Hall.
        -- rewrite Hlow by lia. apply IH. lia.
Qed.

(** X7.  [find_gitignore] finds the nearest ignore file: the one of the
    start directory or of the closest directory above it that has one, and
    none when no directory up to the root has one.  The directory of the
    file it finds is the start directory or lies above it, so the paths
    under the start directory can always be taken relative to it. *)
Theorem find_gitignore_nearest (fs : node) (start_path : list string) :
  match tree_gitignore.find_gitignore fs start_path with
  | Some p =>
      exists k, k <= List.length start_path
                /\ p = firstn k start_path ++ [".gitignore"]
                /\ is_file fs p = true
                /\ (forall j, k < j <= List.length start_path ->
                      is_file fs (firstn j start_path ++ [".gitignore"]) = false)
                /\ Path.strip_prefix (Path.parent p) start_path
                   = Some (skipn k start_path)
  | None =>
      forall j, j <= List.length start_path ->
        is_file fs (firstn j start_path ++ [".gitignore"]) = false
  end.
Proof.
  unfold tree_gitignore.find_gitignore.
  pose proof (find_from_spec fs (List.length start_path) start_path eq_refl) as H.
  destruct (tree_gitignore.find_from fs (List.length start_path) start_path) as [p |];
    [| exact H].
  destruct H as (k & Hk & -> & F & Hno). exists k.
  split; [exact Hk |]. split; [reflexivity |]. split; [exact F |]. split; [exact Hno |].
  unfold Path.parent. rewrite removelast_last. apply strip_prefix_firstn.
Qed.

(* ================================================================== *)
(** * Matching: ignore rules and exclude patterns *)
(* ================================================================== *)

Lemma translate_literal (s : string) :
  literal s = true ->
  Fnmatch.translate_from 0 s = map Fnmatch.TLit (list_ascii_of_string s).
Proof.
  induction s as [| c s IH]; [reflexivity |].
  cbn [literal]. intros H.
  apply andb_true_iff in H. destruct H as [H H4].
  apply andb_true_iff in H. destruct H as [H H3].
  apply andb_true_iff in H. destruct H as [H1 H2].
  apply negb_true_iff in H1, H2, H3.
  cbn [Fnmatch.translate_from list_ascii_of_string map].
  now rewrite H1, H2, H3, (IH H4).
Qed.

Lemma match_lits (s r : string) (ts : list Fnmatch.tok) :
  Fnmatch.match_toks (map Fnmatch.TLit (list_ascii_of_string s) ++ ts) (s ++ r)
  = Fnmatch.match_toks ts r.
Proof.
  induction s as [| c s IH]; [reflexivity |].
  cbn [list_ascii_of_string map app append Fnmatch.match_toks Fnmatch.tok_matches].
  now rewrite Ascii.eqb_refl, IH.
Qed.

Lemma append_empty_r (s : string) : (s ++ "")%string = s.
Proof. induction s as [| c s IH]; [reflexivity |]. cbn. now rewrite IH. Qed.

Lemma append_assoc (s t u : string) : ((s ++ t) ++ u)%string = (s ++ t ++ u)%string.
Proof. induction s as [| c s IH]; [reflexivity |]. cbn. now rewrite IH. Qed.

Lemma fnmatch_literal (s : string) : literal s = true -> Fnmatch.fnmatch s s = true.
Proof.
  intros H. unfold Fnmatch.fnmatch, Fnmatch.translate. rewrite (translate_literal s H).
  rewrite <- (app_nil_r (map _ _)). rewrite <- (append_empty_r s) at 2.
  now rewrite match_lits.
Qed.

Lemma star_skip (ts : list Fnmatch.tok) (pre s : string) :
  Fnmatch.match_toks ts s = true ->
  Fnmatch.match_toks (Fnmatch.TStar :: ts) (pre ++ s) = true.
Proof.
  intros H. induction pre as [| c pre IH].
  - cbn [append]. destruct s; cbn [Fnmatch.match_toks]; now rewrite H.
  - cbn [append]. cbn [Fnmatch.match_toks]. cbn [Fnmatch.match_toks] in IH.
    rewrite IH. apply orb_true_r.
Qed.

Lemma substring_app_skip (s t : string) (k : nat) :
  String.substring (String.length s) k (s ++ t) = String.substring 0 k t.
Proof. induction s as [| c s IH]; [reflexivity | exact IH]. Qed.

Lemma substring_all (t : string) : String.substring 0 (String.length t) t = t.
Proof. induction t as [| c t IH]; [reflexivity |]. cbn. now rewrite IH. Qed.

Lemma substring_prefix (s t : string) :
  String.substring 0 (String.length s) (s ++ t) = s.
Proof. induction s as [| c s IH]; [now destruct t |]. cbn. now rewrite IH. Qed.

Lemma length_append (s t : string) :
  String.length (s ++ t) = String.length s + String.length t.
Proof. induction s as [| c s IH]; [reflexivity |]. cbn. now rewrite IH. Qed.

Lemma endswith_app (s suf : string) : Py.endswith suf (s ++ suf) = true.
Proof.
  unfold Py.endswith. rewrite length_append.
  replace (String.length s + String.length suf - String.length suf)
    with (String.length s) by lia.
  rewrite substring_app_skip, substring_all, String.eqb_refl.
  apply andb_true_iff. split; [| reflexivity]. apply Nat.leb_le. lia.
Qed.

Lemma drop_last_app (s suf : string) :
  Py.drop_last (String.length suf) (s ++ suf) = s.
Proof.
  unfold Py.drop_last. rewrite length_append.
  replace (String.length s + String.length suf - String.length suf)
    with (String.length s) by lia.
  apply substring_prefix.
Qed.

Lemma substring_1_in (s : string) (i : nat) (c : ascii) :
  String.substring i 1 s = String c EmptyString -> Py.contains_char c s = true.
Proof.
  revert i. induction s as [| a s IH]; intros i H.
  - destruct i; discriminate H.
  - destruct i as [| i]; cbn [String.substring Py.contains_char] in *.
    + injection H as -> _. now rewrite Ascii.eqb_refl.
    + rewrite (IH i H). apply orb_true_r.
Qed.

Lemma endswith_char_absent (c : ascii) (s : string) :
  Py.contains_char c s = false -> Py.endswith (String c EmptyString) s = false.
Proof.
  intros H. unfold Py.endswith. cbn [String.length].
  destruct (String.eqb_spec (String.substring (String.length s - 1) 1 s)
                            (String c EmptyString)) as [E | N].
  - apply substring_1_in in E. congruence.
  - apply andb_false_r.
Qed.

Lemma rstrip_char_absent (c : ascii) (s : string) :
  Py.contains_char c s = false -> Py.rstrip_char c s = s.
Proof.
  unfold Py.rstrip_char. induction s as [| a s IH]; [reflexivity |].
  cbn [Py.contains_char Py.rstrip_with]. intros H.
  apply orb_false_iff in H. destruct H as [H1 H2].
  rewrite (IH H2). destruct s; [now rewrite H1 | reflexivity].
Qed.

Lemma split_on_nonempty (c : ascii) (s : string) : Py.split_on c s <> [].
Proof.
  induction s as [| d s IH]; [discriminate |]. cbn [Py.split_on].
  destruct (Py.split_on c s); [discriminate |]. destruct (Ascii.eqb d c); discriminate.
Qed.

Lemma split_on_absent (c : ascii) (s : string) :
  Py.contains_char c s = false -> Py.split_on c s = [s].
Proof.
  induction s as [| d s IH]; [reflexivity |].
  cbn [Py.contains_char Py.split_on]. intros H.
  apply orb_false_iff in H. destruct H as [H1 H2].
  rewrite (IH H2). rewrite Ascii.eqb_sym in H1. now rewrite H1.
Qed.

Lemma split_on_app (c : ascii) (s t : string) :
  Py.contains_char c s = false ->
  Py.split_on c (s ++ String c t) = s :: Py.split_on c t.
Proof.
  induction s as [| d s IH]; cbn [Py.contains_char append Py.split_on]; intros H.
  - pose proof (split_on_nonempty c t) as N.
    destruct (Py.split_on c t); [contradiction |]. now rewrite Ascii.eqb_refl.
  - apply orb_false_iff in H. destruct H as [H1 H2].
    rewrite (IH H2). rewrite Ascii.eqb_sym in H1. now rewrite H1.
Qed.

Lemma segment_ok_inv (s : string) :
  segment_ok s = true ->
  s <> EmptyString /\ s <> "."%string /\ Py.contains_char "/" s = false.
Proof.
  unfold segment_ok. intros H.
  apply andb_true_iff in H. destruct H as [H H3].
  apply andb_true_iff in H. destruct H as [H1 H2].
  apply negb_true_iff in H1, H2, H3.
  repeat split; try assumption; intros ->; discriminate.
Qed.

Lemma join_cons (sep p : string) (ps : list string) :
  ps <> [] -> Py.join sep (p :: ps) = (p ++ sep ++ Py.join sep ps)%string.
Proof. destruct ps; [contradiction | reflexivity]. Qed.

Lemma split_join (ps : list string) :
  forallb segment_ok ps = true -> ps <> [] ->
  Py.split_on "/" (Py.join "/" ps) = ps.
Proof.
  induction ps as [| p ps IH]; [contradiction |]. intros H _.
  cbn [forallb] in H. apply andb_true_iff in H. destruct H as [Hp Hps].
  destruct (segment_ok_inv p Hp) as (_ & _ & Hs).
  destruct ps as [| q ps].
  - now apply split_on_absent.
  - rewrite join_cons by discriminate.
    change ("/" ++ Py.join "/" (q :: ps))%string with (String "/" (Py.join "/" (q :: ps))).
    rewrite (split_on_app "/" p _ Hs). f_equal. apply IH; [exact Hps | discriminate].
Qed.

(** The segments of a relative path are read back from what it prints
    as. *)
Lemma of_string_as_posix (ps : list string) :
  forallb segment_ok ps = true ->
  Path.of_string (Path.as_posix ps) = Path.mk_path false ps.
Proof.
  intros H. destruct ps as [| p ps]; [reflexivity |].
  unfold Path.of_string, Path.as_posix. f_equal.
  - cbn [forallb] in H. apply andb_true_iff in H. destruct H as [Hp _].
    destruct (segment_ok_inv p Hp) as (Hne & _ & Hs).
    destruct p as [| a p]; [contradiction |].
    cbn [Py.contains_char] in Hs. apply orb_false_iff in Hs. destruct Hs as [Hs _].
    unfold Py.startswith. destruct ps; cbn [Py.join append String.prefix].
    + destruct (Ascii.ascii_dec "/" a) as [E | N]; [| reflexivity].
      subst a. discriminate Hs.
    + destruct (Ascii.ascii_dec "/" a) as [E | N]; [| reflexivity].
      subst a. discriminate Hs.
  - rewrite split_join by (exact H || discriminate).
    rewrite forallb_forall in H.
    assert (F : forall l, (forall x, In x l -> segment_ok x = true) ->
                filter (fun p => negb (String.eqb p "") && negb (String.eqb p ".")) l = l).
    { induction l as [| x l IHl]; [reflexivity |]. intros Hl. cbn [filter].
      pose proof (Hl x (or_introl eq_refl)) as Hx. unfold segment_ok in Hx.
      apply andb_true_iff in Hx. destruct Hx as [Hx _]. rewrite Hx.
      f_equal. apply IHl. intros y Hy. apply Hl. now right. }
    apply F. exact H.
Qed.

Lemma strip_prefix_refl (p : list string) : Path.strip_prefix p p = Some [].
Proof.
  induction p as [| x p IH]; [reflexivity |].
  cbn [Path.strip_prefix]. now rewrite String.eqb_refl.
Qed.

Lemma strip_prefix_short (pre l : list string) :
  List.length l < List.length pre -> Path.strip_prefix pre l = None.
Proof.
  revert l. induction pre as [| p pre IH]; intros [| x l] H; cbn in H; try lia.
  - reflexivity.
  - cbn [Path.strip_prefix]. destruct (String.eqb p x); [| reflexivity].
    apply IH. lia.
Qed.

(** X8.  Matching has no way to take a path back in: a path ignored under
    some rule sets stays ignored when scopes are added or rules are added
    to a scope, a rule written as a negation included. *)
Theorem matches_gitignore_monotone (cwd : list string) (fs : node)
        (relative_path_posix : string) (m1 m2 : patterns_map) :
  (forall scope patterns, In (scope, patterns) m1 ->
     exists patterns', In (scope, patterns') m2 /\ incl patterns patterns') ->
  matches_gitignore cwd fs relative_path_posix m1 = true ->
  matches_gitignore cwd fs relative_path_posix m2 = true.
Proof.
  unfold matches_gitignore. intros Hsub H.
  apply existsb_exists in H. destruct H as ([scope ps] & Hin & H).
  cbn [fst snd] in H.
  destruct (Hsub scope ps Hin) as (ps' & Hin' & Hincl).
  apply existsb_exists. exists (scope, ps'). split; [exact Hin' |]. cbn [fst snd].
  destruct (relative_to_scope cwd _ scope) as [rel |]; [| discriminate H].
  apply existsb_exists in H. destruct H as (p & Hp & H).
  apply existsb_exists. exists p. split; [now apply Hincl | exact H].
Qed.

Lemma matches_gitignore_monotone_witness :
  matches_gitignore ["w"; "proj"] demo_fs "b.log"
                    [(["w"; "proj"], ["*.log"; "!b.log"]); (["w"], ["*.tmp"])]
  = true.
Proof.
  apply (matches_gitignore_monotone ["w"; "proj"] demo_fs "b.log" demo_map).
  - intros scope ps [E | []]. injection E as <- <-.
    exists ["*.log"; "!b.log"]. split; [now left |].
    intros p [<- | []]. now left.
  - reflexivity.
Defined.

(** X9.  Started in the source directory, the matcher applies the rules
    of the source directory's own ignore file, to the candidate's path as
    it stands, and nothing else: the ignore files of the directories above,
    though collected in the map, never take part. *)
Theorem matches_gitignore_in_source_dir (fs : node) (source : list string)
        (relative_path_posix : string) :
  Path.anchored (Path.of_string relative_path_posix) = false ->
  matches_gitignore source fs relative_path_posix
                    (get_gitignore_patterns fs source)
  = existsb (pattern_matches source fs
               (Path.as_posix (Path.parts (Path.of_string relative_path_posix))))
            (parse_gitignore fs (source ++ [".gitignore"])).
Proof.
  intros Hrel. rewrite get_gitignore_patterns_closed.
  assert (Own : relative_to_scope source (Path.of_string relative_path_posix) source
                = Some (Path.as_posix (Path.parts (Path.of_string relative_path_posix)))).
  { unfold relative_to_scope, Path.relative_to.
    now rewrite strip_prefix_refl, Hrel. }
  apply Bool.eq_true_iff_eq. unfold matches_gitignore. split; intros H.
  - apply existsb_exists in H. destruct H as (e & He & H).
    apply in_flat_map in He. destruct He as (d & Hd & He).
    apply scope_entry_key in He. destruct He as (Ef & _ & Es & _).
    rewrite Ef in H. apply In_ancestors in Hd. destruct Hd as (n & Hn & ->).
    destruct (Nat.eq_dec n (List.length source)) as [-> | Hne].
    + rewrite firstn_all in *. rewrite Own in H. now rewrite <- Es.
    + unfold relative_to_scope in H. rewrite strip_prefix_short in H; [discriminate H |].
      rewrite length_firstn. lia.
  - assert (F : is_file fs (source ++ [".gitignore"]) = true).
    { unfold parse_gitignore in H.
      destruct (is_file fs (source ++ [".gitignore"])); [reflexivity | discriminate H]. }
    apply existsb_exists.
    exists (source, parse_gitignore fs (source ++ [".gitignore"])). split.
    + apply in_flat_map. exists source. split.
      * apply In_ancestors. exists (List.length source). split; [lia |].
        now rewrite firstn_all.
      * unfold scope_entry. rewrite F.
        destruct (parse_gitignore fs (source ++ [".gitignore"])); [discriminate H | now left].
    + cbn [fst snd]. now rewrite Own.
Qed.

Lemma matches_gitignore_in_source_dir_witness :
  matches_gitignore ["w"; "proj"] demo_fs "b.log"
                    (get_gitignore_patterns demo_fs ["w"; "proj"])
  = existsb (pattern_matches ["w"; "proj"] demo_fs
               (Path.as_posix (Path.parts (Path.of_string "b.log"))))
            (parse_gitignore demo_fs (["w"; "proj"] ++ [".gitignore"])).
Proof.
  apply (matches_gitignore_in_source_dir demo_fs ["w"; "proj"] "b.log").
  reflexivity.
Defined.

Lemma mem_true (x : string) (l : list string) : In x l -> mem x l = true.
Proof. apply mem_In. Qed.

(** X10.  A rule that is a plain name, with or without a trailing slash,
    ignores every path that has that name as one of its segments, at
    whatever depth and whether the segment is a directory or the file
    itself. *)
Theorem name_rule_matches_any_segment (cwd : list string) (fs : node)
        (parts patterns : list string) (name : string) :
  forallb segment_ok parts = true ->
  literal name = true ->
  In name parts ->
  In name patterns \/ In (name ++ "/")%string patterns ->
  matches_gitignore cwd fs (Path.as_posix parts) [(cwd, patterns)] = true.
Proof.
  intros Hparts Hlit Hin Hpat.
  assert (Hname : Py.contains_char "/" name = false).
  { rewrite forallb_forall in Hparts. now apply segment_ok_inv, Hparts. }
  assert (Hseg : existsb (fun part => Fnmatch.fnmatch part name) parts = true).
  { apply existsb_exists. exists name. split; [exact Hin | now apply fnmatch_literal]. }
  unfold matches_gitignore. cbn [existsb fst snd]. rewrite orb_false_r.
  unfold relative_to_scope, Path.relative_to.
  rewrite strip_prefix_refl, (of_string_as_posix parts Hparts).
  cbn [Path.anchored Path.parts Path.strip_prefix].
  apply existsb_exists. destruct Hpat as [Hp | Hp].
  - exists name. split; [exact Hp |]. unfold pattern_matches.
    rewrite (rstrip_char_absent "/" name Hname), (endswith_char_absent "/" name Hname).
    rewrite (of_string_as_posix parts Hparts). cbn [Path.parts].
    now rewrite Hseg, orb_true_r.
  - exists (name ++ "/")%string. split; [exact Hp |]. unfold pattern_matches.
    rewrite (endswith_app name "/").
    unfold Py.rstrip_char. rewrite rstrip_with_snoc by reflexivity.
    fold (Py.rstrip_char "/" name). rewrite (rstrip_char_absent "/" name Hname).
    rewrite (of_string_as_posix parts Hparts). cbn [Path.parts].
    rewrite Hseg, orb_true_r. rewrite (mem_true name parts Hin). apply orb_true_r.
Qed.

Lemma name_rule_matches_any_segment_witness :
  matches_gitignore ["w"] demo_fs (Path.as_posix ["src"; "build"; "x.o"])
                    [(["w"], ["build/"])] = true.
Proof.
  apply (name_rule_matches_any_segment ["w"] demo_fs ["src"; "build"; "x.o"]
                                       ["build/"] "build").
  - reflexivity.
  - reflexivity.
  - right. now left.
  - right. now left.
Defined.

Lemma join_snoc (sep : string) (ps : list string) (x : string) :
  ps <> [] -> Py.join sep (ps ++ [x]) = (Py.join sep ps ++ sep ++ x)%string.
Proof.
  induction ps as [| p ps IH]; [contradiction |]. intros _.
  destruct ps as [| q ps]; [reflexivity |].
  change ((p :: q :: ps) ++ [x]) with (p :: ((q :: ps) ++ [x])).
  rewrite join_cons by (now destruct ps).
  rewrite IH by discriminate.
  rewrite (join_cons sep p (q :: ps)) by discriminate.
  now rewrite !append_assoc.
Qed.

Lemma replace_char_app (a b : ascii) (s t : string) :
  Py.replace_char a b (s ++ t)
  = (Py.replace_char a b s ++ Py.replace_char a b t)%string.
Proof. induction s as [| c s IH]; [reflexivity |]. cbn. now rewrite IH. Qed.

Lemma replace_char_absent (a b : ascii) (s : string) :
  Py.contains_char a s = false -> Py.replace_char a b s = s.
Proof.
  induction s as [| c s IH]; [reflexivity |].
  cbn [Py.contains_char Py.replace_char]. intros H.
  apply orb_false_iff in H. destruct H as [H1 H2].
  rewrite Ascii.eqb_sym in H1. now rewrite H1, (IH H2).
Qed.

Lemma translate_anchor (name : string) :
  Fnmatch.translate ("**/" ++ name)
  = Fnmatch.TStar :: Fnmatch.TStar :: Fnmatch.TLit "/"
    :: Fnmatch.translate_from 0 name.
Proof. reflexivity. Qed.

Lemma fnmatch_anchor_nested (before name : string) :
  literal name = true ->
  Fnmatch.fnmatch (before ++ "/" ++ name) ("**/" ++ name) = true.
Proof.
  intros H. unfold Fnmatch.fnmatch.
  rewrite translate_anchor, (translate_literal name H).
  apply star_skip. apply (star_skip _ EmptyString).
  cbn [append Fnmatch.match_toks Fnmatch.tok_matches]. rewrite Ascii.eqb_refl.
  cbn [andb]. rewrite <- (app_nil_r (map _ _)). rewrite <- (append_empty_r name) at 2.
  now rewrite match_lits.
Qed.

Lemma anchor_pattern_to_test (name : string) :
  pattern_to_test_against_dir ("**/" ++ name ++ "/*") = ("**/" ++ name)%string.
Proof.
  unfold pattern_to_test_against_dir.
  change ("**/" ++ name ++ "/*")%string with ("**/" ++ (name ++ "/*"))%string.
  rewrite <- append_assoc. rewrite endswith_app.
  apply (drop_last_app ("**/" ++ name) "/*").
Qed.

Lemma anchor_drop_first (name : string) :
  Py.drop_first 3 ("**/" ++ name) = name.
Proof.
  unfold Py.drop_first. cbn [append String.length Nat.sub String.substring].
  rewrite Nat.sub_0_r. apply substring_all.
Qed.

Lemma anchor_startswith (name : string) :
  Py.startswith "**/" ("**/" ++ name) = true.
Proof.
  unfold Py.startswith. cbn [append String.prefix].
  repeat (destruct (Ascii.ascii_dec _ _) as [_ | N]; [| now destruct N]).
  now destruct name.
Qed.

Lemma dir_match_anchor (rel : list string) (name : string) :
  literal name = true ->
  Py.contains_char "/" name = false ->
  Py.contains_char "\" name = false ->
  dir_match_result (posix (rel ++ [name])) ("**/" ++ name ++ "/*") = true.
Proof.
  intros Hlit Hslash Hback. unfold dir_match_result.
  rewrite anchor_pattern_to_test, anchor_drop_first.
  destruct rel as [| r rel].
  - assert (E : posix ([] ++ [name]) = name).
    { unfold posix. cbn [app Path.as_posix Py.join]. now apply replace_char_absent. }
    rewrite E, Hslash, (fnmatch_literal name Hlit), anchor_startswith.
    destruct (Fnmatch.fnmatch name ("**/" ++ name)); reflexivity.
  - assert (E : posix ((r :: rel) ++ [name])
                = (Py.replace_char "\" "/" (Py.join "/" (r :: rel)) ++ "/" ++ name)%string).
    { unfold posix, Path.as_posix. cbn [app].
      change (r :: rel ++ [name]) with ((r :: rel) ++ [name]).
      rewrite join_snoc by discriminate.
      rewrite !replace_char_app. rewrite (replace_char_absent _ _ name Hback).
      reflexivity. }
    rewrite E, (fnmatch_anchor_nested _ name Hlit). reflexivity.
Qed.

(** X11.  With the exclude pattern [**/N/*] for a plain name [N], a
    subdirectory named [N] is removed from the walk wherever it is, at the
    top of the source directory as well as below any other directory. *)
Theorem recursive_pattern_prunes_at_any_depth (a : args) (cwd : list string)
        (fs : node) (gitignore_map : patterns_map) (rel : list string)
        (name : string) :
  literal name = true ->
  Py.contains_char "/" name = false ->
  Py.contains_char "\" name = false ->
  In ("**/" ++ name ++ "/*")%string (exclude_patterns a) ->
  dir_exclude_pattern (exclude_patterns a) (posix (rel ++ [name])) <> None
  /\ kept (dir_stage a cwd fs gitignore_map rel name) = false.
Proof.
  intros Hlit Hslash Hback Hin.
  assert (P : dir_exclude_pattern (exclude_patterns a) (posix (rel ++ [name])) <> None).
  { unfold dir_exclude_pattern. intros N.
    pose proof (find_none _ _ N _ Hin) as F.
    rewrite (dir_match_anchor rel name Hlit Hslash Hback) in F. discriminate F. }
  split; [exact P |].
  unfold dir_stage, late_stage. destruct (std_excluded a name); [reflexivity |].
  destruct (dir_exclude_pattern _ _); [reflexivity | contradiction].
Qed.

Lemma recursive_pattern_prunes_at_any_depth_witness :
  dir_exclude_pattern (exclude_patterns (demo_args true))
                      (posix (["src"; "lib"] ++ ["build"])) <> None
  /\ kept (dir_stage (demo_args true) ["w"; "proj"] demo_fs demo_map
                     ["src"; "lib"] "build") = false.
Proof.
  apply (recursive_pattern_prunes_at_any_depth (demo_args true) ["w"; "proj"]
           demo_fs demo_map ["src"; "lib"] "build"); try reflexivity.
  now left.
Defined.

(* ================================================================== *)
(** * The three tests of the directory pruning *)
(* ================================================================== *)








Section Tests.

Variable a : args.
Variable cwd : list string.
Variable fs : node.
Variable gitignore_map : patterns_map.










End Tests.



Example pruning_order_demo :
  prune_dirs (demo_args true) ["w"; "proj"] demo_fs demo_map []
             (subdirs demo_entries) init_state
  = (["src"],
     mk_state (mk_counters 0 1 0 0 0 1) "" []
              [(PatternExcludedDir, ["build"]);
               (StandardExcludedDir, ["node_modules"])]).
Proof. reflexivity. Qed.

(* ================================================================== *)
(** * The walk: where every decision comes from *)
(* ================================================================== *)

Lemma note_decision (r r' : decision) (p p' : list string) (st st' : state) :
  note r p st = note r' p' st' -> r = r'.
Proof.
  unfold note. intros H. injection H as _ _ _ H.
  apply app_inj_tail in H. destruct H as [_ H]. now injection H.
Qed.

Lemma Ok_note_decision (r r' : decision) (p p' : list string) (st st' : state) :
  Ok (note r p st) = Ok (note r' p' st') -> r = r'.
Proof.
  intros H.
  apply (f_equal (fun x => match x with Ok s => s | Raise _ s => s end)) in H.
  now apply note_decision in H.
Qed.

Section Provenance.

Variable a : args.
Variable cwd : list string.
Variable fs : node.
Variable gitignore_map : patterns_map.

Local Abbreviation stage := (dir_stage a cwd fs gitignore_map).
Local Abbreviation came_to := (reached a cwd fs gitignore_map).

Lemma process_file_step (rel : list string) (f : string * file_data) (st : state) :
exists r st1 w,
  process_file a cwd fs gitignore_map rel f st = Ok (note r (rel ++ [fst f]) st1)
  /\ trace st1 = trace st
  /\ md_file st1 = (md_file st ++ w)%string.
Proof.
assert (E : md_file st = (md_file st ++ "")%string) by now rewrite append_empty_r.
destruct f as [name d]. unfold process_file. cbn [fst].
destruct (path_eqb _ _); [now exists OutputFileItself, st, EmptyString |].
destruct (is_binary_file_returns name d) as [b ->].
destruct b; [now exists BinaryFile, st, EmptyString |].
destruct (existsb _ _); [now exists StandardExcludedFile, st, EmptyString |].
destruct (file_exclude_pattern _ _); [now exists PatternExcludedFile, st, EmptyString |].
destruct (matches_gitignore _ _ _ _); [now exists GitignoredFile, st, EmptyString |].
destruct (text d); [| now exists UnreadableFile, st, EmptyString].
eexists Processed, _, _. split; [reflexivity |]. split; reflexivity.
Qed.

Lemma process_files_provenance (rel : list string)
    (files : list (string * file_data)) (st : state) :
exists st' delta w,
  process_files a cwd fs gitignore_map rel files st = Ok st'
  /\ trace st' = trace st ++ delta
  /\ md_file st' = (md_file st ++ w)%string
  /\ (forall e, In e delta ->
        exists name d st0 st1,
          snd e = rel ++ [name]
          /\ process_file a cwd fs gitignore_map rel (name, d) st0
             = Ok (note (fst e) (rel ++ [name]) st1)).
Proof.
revert st. induction files as [| [name d] files IH]; intros st.
- exists st, [], EmptyString. split; [reflexivity |].
  split; [now rewrite app_nil_r |]. split; [now rewrite append_empty_r |].
  intros e [].
- cbn [process_files].
  destruct (process_file_step rel (name, d) st) as (r & st1 & w1 & E & T & M).
  cbn [fst] in E. rewrite E.
  destruct (IH (note r (rel ++ [name]) st1)) as (st' & delta & w & E' & T' & M' & H).
  exists st', ((r, rel ++ [name]) :: delta), (w1 ++ w)%string.
  split; [exact E' |]. split; [| split].
  + rewrite T'. cbn [note trace]. rewrite T, <- app_assoc. reflexivity.
  + rewrite M'. cbn [note md_file]. now rewrite M, append_assoc.
  + intros e [<- | He]; [| now apply H].
    exists name, d, st, st1. split; [reflexivity | exact E].
Qed.

Lemma pruning_entries_stage (rel dirs : list string) (e : decision * list string) :
In e (pruning_entries a cwd fs gitignore_map rel dirs) ->
exists d, snd e = rel ++ [d] /\ stage rel d = Some (fst e).
Proof.
unfold pruning_entries. intros H. apply in_app_or in H. destruct H as [H | H].
- apply in_flat_map in H. destruct H as (d & Hd & He).
  apply filter_In in Hd. destruct Hd as [_ Hd]. apply negb_true_iff in Hd.
  unfold late_entry in He.
  destruct (late_stage a cwd fs gitignore_map rel d) as [r |] eqn:L; [| contradiction].
  destruct He as [<- | []]. exists d. split; [reflexivity |].
  unfold dir_stage. now rewrite Hd.
- apply in_map_iff in H. destruct H as (d & <- & Hd).
  apply nodup_In, filter_In in Hd. destruct Hd as [_ Hd].
  exists d. split; [reflexivity |]. unfold dir_stage. now rewrite Hd.
Qed.

Lemma dir_entry_down (rel : list string) (c : string) (e : decision * list string) :
stage rel c = None ->
dir_entry a cwd fs gitignore_map (rel ++ [c]) e ->
dir_entry a cwd fs gitignore_map rel e.
Proof.
intros K (s & d & P & R & S). exists (c :: s), d.
rewrite app_cons_assoc in P, S. split; [exact P |]. split; [| exact S].
now apply reached_cons.
Qed.

Lemma file_entry_down (rel : list string) (c : string) (e : decision * list string) :
stage rel c = None ->
file_entry a cwd fs gitignore_map (rel ++ [c]) e ->
file_entry a cwd fs gitignore_map rel e.
Proof.
intros K (s & name & d & st0 & st1 & P & R & E). exists (c :: s), name, d, st0, st1.
rewrite app_cons_assoc in P, E. split; [exact P |]. split; [| exact E].
now apply reached_cons.
Qed.

Lemma descend_provenance (dirs rel : list string) (es : list (string * node)) :
Forall (fun e => walk_provenance a cwd fs gitignore_map (snd e)) es ->
(forall c, mem c dirs = true -> stage rel c = None) ->
forall st,
exists st' delta w,
  descend (walk a cwd fs gitignore_map) dirs rel es st = Ok st'
  /\ trace st' = trace st ++ delta
  /\ md_file st' = (md_file st ++ w)%string
  /\ (forall e, In e delta ->
        dir_entry a cwd fs gitignore_map rel e
        \/ file_entry a cwd fs gitignore_map rel e).
Proof.
intros Hall Hkept. induction Hall as [| [c child] es H0 Hall IH]; intros st.
- exists st, [], EmptyString. split; [reflexivity |].
  split; [now rewrite app_nil_r |]. split; [now rewrite append_empty_r |].
  intros e [].
- rewrite descend_cons. cbn [snd] in H0.
  assert (Walked :
    mem c dirs = true ->
    exists st' delta w,
      match walk a cwd fs gitignore_map child (rel ++ [c]) st with
      | Ok st' => descend (walk a cwd fs gitignore_map) dirs rel es st'
      | Raise e st' => Raise e st'
      end = Ok st'
      /\ trace st' = trace st ++ delta
      /\ md_file st' = (md_file st ++ w)%string
      /\ (forall e, In e delta ->
            dir_entry a cwd fs gitignore_map rel e
            \/ file_entry a cwd fs gitignore_map rel e)).
  { intros M. pose proof (Hkept c M) as K.
    destruct (H0 (rel ++ [c]) st) as (st1 & d1 & w1 & E1 & T1 & M1 & P1). rewrite E1.
    destruct (IH st1) as (st2 & d2 & w2 & E2 & T2 & M2 & P2).
    exists st2, (d1 ++ d2), (w1 ++ w2)%string.
    split; [exact E2 |]. split; [now rewrite T2, T1, app_assoc |].
    split; [now rewrite M2, M1, append_assoc |].
    intros e He. apply in_app_or in He. destruct He as [He | He]; [| now apply P2].
    destruct (P1 e He) as [D | F].
    - left. now apply (dir_entry_down rel c).
    - right. now apply (file_entry_down rel c). }
  destruct child as [fd | es0 |]; [apply IH | |];
    (destruct (mem c dirs) eqn:M; [now apply Walked | apply IH]).
Qed.

Lemma walk_provenance_all (n : node) : walk_provenance a cwd fs gitignore_map n.
Proof.
induction n as [fd | | es IH] using node_ind'.
- intros rel st. exists st, [], EmptyString. split; [reflexivity |].
  split; [now rewrite app_nil_r |]. split; [now rewrite append_empty_r |].
  intros e [].
- intros rel st. exists st, [], EmptyString. split; [reflexivity |].
  split; [now rewrite app_nil_r |]. split; [now rewrite append_empty_r |].
  intros e [].
- intros rel st. rewrite walk_Dir. cbv zeta.
  set (dirs := filter (fun d => kept (stage rel d)) (subdirs es)).
  set (dp := pruning_entries a cwd fs gitignore_map rel (subdirs es)).
  destruct (process_files_provenance rel (nondirs es) (record_all dp (visit rel st)))
    as (st_f & df & wf & -> & Tf & Mf & Pf).
  assert (Hkept : forall c, mem c dirs = true -> stage rel c = None).
  { intros c M. now apply kept_mem in M. }
  destruct (descend_provenance dirs rel es IH Hkept st_f)
    as (st_d & dd & wd & Ed & Td & Md & Pd).
  exists st_d, (dp ++ df ++ dd), (wf ++ wd)%string.
  split; [exact Ed |]. split; [| split].
  + rewrite Td, Tf. cbn [record_all visit trace]. now rewrite !app_assoc.
  + rewrite Md, Mf. cbn [record_all visit md_file]. now rewrite append_assoc.
  + intros e He. apply in_app_or in He. destruct He as [He | He];
      [| apply in_app_or in He; destruct He as [He | He] ].
    * left. destruct (pruning_entries_stage rel (subdirs es) e He) as (d & P & S).
      exists [], d. rewrite app_nil_r. split; [exact P |].
      split; [apply reached_nil | exact S].
    * right. destruct (Pf e He) as (name & d & st0 & st1 & P & E).
      exists [], name, d, st0, st1. rewrite app_nil_r. split; [exact P |].
      split; [apply reached_nil | exact E].
    * now apply Pd.
Qed.

(** What [process_file] has checked when it dumps a file. *)
Lemma process_file_Processed (rel : list string) (name : string) (d : file_data)
    (st st1 : state) :
process_file a cwd fs gitignore_map rel (name, d) st
= Ok (note Processed (rel ++ [name]) st1) ->
path_eqb (source_dir a ++ rel ++ [name]) (output_file a) = false
/\ is_binary_file name d = Ok false
/\ existsb (fun part => mem part (exclude_dirs a)) (rel ++ [name]) = false
/\ file_exclude_pattern (exclude_patterns a) (posix (rel ++ [name])) = None
/\ matches_gitignore cwd fs (posix (rel ++ [name])) gitignore_map = false
/\ text d <> None.
Proof.
unfold process_file.
destruct (path_eqb _ _);
  [intros H; apply Ok_note_decision in H; discriminate H |].
destruct (is_binary_file_returns name d) as [b ->].
destruct b;
  [intros H; apply Ok_note_decision in H; discriminate H |].
destruct (existsb _ _);
  [intros H; apply Ok_note_decision in H; discriminate H |].
destruct (file_exclude_pattern _ _);
  [intros H; apply Ok_note_decision in H; discriminate H |].
destruct (matches_gitignore _ _ _ _);
  [intros H; apply Ok_note_decision in H; discriminate H |].
destruct (text d);
  [| intros H; apply Ok_note_decision in H; discriminate H].
intros _. repeat split. discriminate.
Qed.

Lemma process_file_StandardExcluded (rel : list string) (name : string)
    (d : file_data) (st st1 : state) :
process_file a cwd fs gitignore_map rel (name, d) st
= Ok (note StandardExcludedFile (rel ++ [name]) st1) ->
existsb (fun part => mem part (exclude_dirs a)) (rel ++ [name]) = true.
Proof.
unfold process_file.
destruct (path_eqb _ _);
  [intros H; apply Ok_note_decision in H; discriminate H |].
destruct (is_binary_file_returns name d) as [b ->].
destruct b;
  [intros H; apply Ok_note_decision in H; discriminate H |].
destruct (existsb _ _); [reflexivity |].
destruct (file_exclude_pattern _ _);
  [intros H; apply Ok_note_decision in H; discriminate H |].
destruct (matches_gitignore _ _ _ _);
  [intros H; apply Ok_note_decision in H; discriminate H |].
destruct (text d);
  intros H; apply Ok_note_decision in H; discriminate H.
Qed.

End Provenance.

Lemma dir_stage_None_std (a : args) (cwd : list string) (fs : node)
      (gitignore_map : patterns_map) (rel : list string) (d : string) :
  dir_stage a cwd fs gitignore_map rel d = None -> mem d (exclude_dirs a) = false.
Proof.
  unfold dir_stage, std_excluded.
  destruct (mem d (exclude_dirs a)); [discriminate | reflexivity].
Qed.

Lemma snoc_split (s s1 : list string) (name d : string) (s2 : list string) :
  s ++ [name] = s1 ++ d :: s2 -> s2 <> [] ->
  exists t, s = s1 ++ d :: t.
Proof.
  intros E N. destruct (exists_last N) as (t & y & ->).
  exists t. change (s1 ++ d :: t ++ [y]) with (s1 ++ (d :: t) ++ [y]) in E.
  rewrite app_assoc in E. apply app_inj_tail in E. apply E.
Qed.

(** X12.  Every file the walk dumps has passed every filter: it is not the
    output file, none of its path segments is in the literal-exclude set,
    no exclude pattern and no ignore rule matches its path, and every
    directory on the way to it was kept by all three directory tests (so
    none is hidden). *)
Theorem dumped_files_passed_every_filter (a : args) (cwd : list string)
        (fs : node) (gitignore_map : patterns_map) (top : node) (st : state) :
  exists st' delta,
    walk a cwd fs gitignore_map top [] st = Ok st'
    /\ trace st' = trace st ++ delta
    /\ forall p, In (Processed, p) delta ->
         path_eqb (source_dir a ++ p) (output_file a) = false
         /\ existsb (fun part => mem part (exclude_dirs a)) p = false
         /\ file_exclude_pattern (exclude_patterns a) (posix p) = None
         /\ matches_gitignore cwd fs (posix p) gitignore_map = false
         /\ (forall s1 d s2, p = s1 ++ d :: s2 -> s2 <> [] ->
               dir_stage a cwd fs gitignore_map s1 d = None
               /\ Py.startswith "." d = false).
Proof.
  destruct (walk_provenance_all a cwd fs gitignore_map top [] st)
    as (st' & delta & w & E & T & _ & P).
  exists st', delta. split; [exact E |]. split; [exact T |].
  intros p Hp. destruct (P _ Hp) as [(s & d & _ & _ & S) | (s & name & d & st0 & st1 & Q & R & F)].
  - cbn [fst] in S. apply dir_stage_cases in S.
    destruct S as [[S _] | [[S _] | [S _]]]; discriminate S.
  - cbn [fst snd app] in Q, F. subst p.
    destruct (process_file_Processed a cwd fs gitignore_map s name d st0 st1 F)
      as (H1 & _ & H3 & H4 & H5 & _).
    repeat (split; [assumption |]).
    intros s1 d' s2 Es N. destruct (snoc_split _ _ _ _ _ Es N) as (t & Et).
    pose proof (R s1 d' t Et) as K. cbn [app] in K. split; [exact K |].
    unfold dir_stage, std_excluded in K.
    destruct (Py.startswith "." d'); [| reflexivity].
    rewrite orb_true_r in K. discriminate K.
Qed.

(** X13.  For a file in a directory the walk came down to, the file
    loop's test of the path segments against the literal-exclude set comes
    to a test of the file's own name: the file is counted there exactly
    when it is not the output file, the detector does not take it for
    binary, and its own name is in the set.  Over a whole walk, every file
    counted there has its own name in the set, and no directory on its
    path has. *)
Theorem excluded_file_is_named_in_the_set (a : args) (cwd : list string)
        (fs : node) (gitignore_map : patterns_map) (top : node) (st : state) :
  (forall s name d st0,
      reached a cwd fs gitignore_map [] s ->
      ((exists st1,
           process_file a cwd fs gitignore_map s (name, d) st0
           = Ok (note StandardExcludedFile (s ++ [name]) st1))
       <-> path_eqb (source_dir a ++ s ++ [name]) (output_file a) = false
           /\ is_binary_file name d = Ok false
           /\ mem name (exclude_dirs a) = true))
  /\ exists st' delta,
       walk a cwd fs gitignore_map top [] st = Ok st'
       /\ trace st' = trace st ++ delta
       /\ forall p, In (StandardExcludedFile, p) delta ->
            mem (last p "") (exclude_dirs a) = true
            /\ forall d, In d (removelast p) -> mem d (exclude_dirs a) = false.
Proof.
  assert (Hs : forall s, reached a cwd fs gitignore_map [] s ->
                 forall d', In d' s -> mem d' (exclude_dirs a) = false).
  { intros s R d' Hd. apply in_split in Hd. destruct Hd as (s1 & s2 & Es).
    pose proof (R s1 d' s2 Es) as K. cbn [app] in K.
    now apply dir_stage_None_std in K. }
  split.
  - intros s name d st0 R.
    assert (Ex : existsb (fun part => mem part (exclude_dirs a)) (s ++ [name])
                 = mem name (exclude_dirs a)).
    { rewrite existsb_app. cbn [existsb]. rewrite orb_false_r.
      destruct (existsb _ s) eqn:X; [| reflexivity].
      apply existsb_exists in X. destruct X as (d' & Hd & M).
      rewrite (Hs s R d' Hd) in M. discriminate M. }
    unfold process_file. rewrite Ex.
    destruct (path_eqb _ _).
    { split; [intros [st1 E]; apply Ok_note_decision in E; discriminate E
             | intros [E _]; discriminate E]. }
    destruct (is_binary_file_returns name d) as [b ->]. destruct b.
    { split; [intros [st1 E]; apply Ok_note_decision in E; discriminate E
             | intros (_ & E & _); discriminate E]. }
    destruct (mem name (exclude_dirs a)).
    { split; [now intros _ | intros _; now exists st0]. }
    split; [| intros (_ & _ & E); discriminate E].
    intros [st1 E].
    destruct (file_exclude_pattern _ _);
      [apply Ok_note_decision in E; discriminate E |].
    destruct (matches_gitignore _ _ _ _);
      [apply Ok_note_decision in E; discriminate E |].
    destruct (text d); apply Ok_note_decision in E; discriminate E.
  - destruct (walk_provenance_all a cwd fs gitignore_map top [] st)
      as (st' & delta & w & E & T & _ & P).
    exists st', delta. split; [exact E |]. split; [exact T |].
    intros p Hp.
    destruct (P _ Hp) as [(s & d & _ & _ & S) | (s & name & d & st0 & st1 & Q & R & F)].
    + cbn [fst] in S. apply dir_stage_cases in S.
      destruct S as [[S _] | [[S _] | [S _]]]; discriminate S.
    + cbn [fst snd app] in Q, F. subst p.
      rewrite last_last, removelast_last.
      split; [| exact (Hs s R)].
      pose proof (process_file_StandardExcluded a cwd fs gitignore_map s name d st0 st1 F) as X.
      rewrite existsb_app in X. cbn [existsb] in X. rewrite orb_false_r in X.
      apply orb_true_iff in X. destruct X as [X | X]; [| exact X].
      apply existsb_exists in X. destruct X as (d' & Hd & M).
      rewrite (Hs s R d' Hd) in M. discriminate M.
Qed.

Lemma bump_all_fields (ds : list decision) :
  forall c,
    processed_count (bump_all ds c) = processed_count c + tally [Processed] ds
    /\ skipped_excluded_dir (bump_all ds c)
       = skipped_excluded_dir c + tally [StandardExcludedDir; StandardExcludedFile] ds
    /\ skipped_gitignore (bump_all ds c)
       = skipped_gitignore c + tally [GitignoredDir; GitignoredFile] ds
    /\ skipped_read_error (bump_all ds c)
       = skipped_read_error c + tally [BinaryFile; UnreadableFile] ds
    /\ skipped_output_file (bump_all ds c)
       = skipped_output_file c + tally [OutputFileItself] ds
    /\ skipped_pattern_exclude (bump_all ds c)
       = skipped_pattern_exclude c + tally [PatternExcludedDir; PatternExcludedFile] ds
    /\ total (bump_all ds c) = total c + List.length ds.
Proof.
  induction ds as [| r ds IH]; intros c.
  - unfold bump_all, tally. cbn. repeat split; lia.
  - change (bump_all (r :: ds) c) with (bump_all ds (bump r c)).
    destruct (IH (bump r c)) as (H1 & H2 & H3 & H4 & H5 & H6 & H7).
    rewrite H1, H2, H3, H4, H5, H6, H7. clear.
    unfold tally, total. destruct r; cbn; repeat split; lia.
Qed.

(** * The walk: every item is counted once *)

Lemma flat_map_app_perm {A B : Type} (f g : A -> list B) (l : list A) :
  Permutation (flat_map f l ++ flat_map g l) (flat_map (fun x => f x ++ g x) l).
Proof.
  induction l as [| x l IH]; [reflexivity |].
  cbn [flat_map]. rewrite <- IH, <- !app_assoc.
  apply Permutation_app_head. rewrite !app_assoc.
  apply Permutation_app_tail. apply Permutation_app_comm.
Qed.

Lemma flat_map_ext_in {A B : Type} (f g : A -> list B) (l : list A) :
  (forall x, In x l -> f x = g x) -> flat_map f l = flat_map g l.
Proof.
  induction l as [| x l IH]; intros H; [reflexivity |].
  cbn [flat_map]. rewrite (H x (or_introl eq_refl)), IH; [reflexivity |].
  intros y Hy. apply H. now right.
Qed.

Lemma flat_map_subdirs {B : Type} (g : string -> list B) (es : list (string * node)) :
  flat_map g (subdirs es)
  = flat_map (fun e => match snd e with File _ => [] | _ => g (fst e) end) es.
Proof.
  unfold subdirs. induction es as [| [x c] es IH]; [reflexivity |].
  cbn [filter flat_map snd fst].
  destruct c; cbn [map flat_map fst]; now rewrite IH.
Qed.

Lemma map_nondirs {B : Type} (g : string -> B) (es : list (string * node)) :
  map (fun f => g (fst f)) (nondirs es)
  = flat_map (fun e => match snd e with File _ => [g (fst e)] | _ => [] end) es.
Proof.
  unfold nondirs. induction es as [| [x c] es IH]; [reflexivity |].
  cbn [flat_map snd fst].
  destruct c; cbn [map app fst]; now rewrite IH.
Qed.

Section Complete.

Variable a : args.
Variable cwd : list string.
Variable fs : node.
Variable gitignore_map : patterns_map.

Local Abbreviation stage := (dir_stage a cwd fs gitignore_map).

Lemma seen_Dir (es : list (string * node)) (rel : list string) :
seen a cwd fs gitignore_map (Dir es) rel
= flat_map (fun e =>
              match snd e with
              | File _ => [rel ++ [fst e]]
              | c => if kept (stage rel (fst e))
                     then seen a cwd fs gitignore_map c (rel ++ [fst e])
                     else [rel ++ [fst e]]
              end) es.
Proof.
cbn [seen]. induction es as [| [x c] es IH]; [reflexivity |].
cbn [flat_map fst snd]. rewrite <- IH. now destruct c.
Qed.

Lemma entry_of_paths (rel : list string) (dirs : list string) :
map snd (flat_map (entry_of a cwd fs gitignore_map rel) dirs)
= flat_map (fun d => if kept (stage rel d) then [] else [rel ++ [d]]) dirs.
Proof.
induction dirs as [| d dirs IH]; [reflexivity |].
cbn [flat_map]. rewrite map_app, IH. unfold entry_of at 1.
now destruct (stage rel d).
Qed.

Lemma process_files_paths (rel : list string)
    (files : list (string * file_data)) (st : state) :
exists st' delta,
  process_files a cwd fs gitignore_map rel files st = Ok st'
  /\ trace st' = trace st ++ delta
  /\ map snd delta = map (fun f => rel ++ [fst f]) files.
Proof.
revert st. induction files as [| f files IH]; intros st.
- exists st, []. split; [reflexivity |]. split; [now rewrite app_nil_r | reflexivity].
- cbn [process_files].
  destruct (process_file_step a cwd fs gitignore_map rel f st)
    as (r & st1 & w1 & E & T & _).
  rewrite E.
  destruct (IH (note r (rel ++ [fst f]) st1)) as (st' & delta & E' & T' & M').
  exists st', ((r, rel ++ [fst f]) :: delta).
  split; [exact E' |]. split.
  + rewrite T'. cbn [note trace]. rewrite T, <- app_assoc. reflexivity.
  + cbn [map snd]. now rewrite M'.
Qed.

Lemma descend_complete (dirs rel : list string) (es : list (string * node)) :
Forall (fun e => walk_complete a cwd fs gitignore_map (snd e)) es ->
Forall (fun e => well_formed (snd e)) es ->
forall st,
exists st' delta,
  descend (walk a cwd fs gitignore_map) dirs rel es st = Ok st'
  /\ trace st' = trace st ++ delta
  /\ Permutation (map snd delta)
       (flat_map (fun e =>
                    match snd e with
                    | File _ => []
                    | c => if mem (fst e) dirs
                           then seen a cwd fs gitignore_map c (rel ++ [fst e])
                           else []
                    end) es).
Proof.
intros Hall. induction Hall as [| [c child] es H0 Hall IH]; intros WF st.
- exists st, []. split; [reflexivity |]. split; [now rewrite app_nil_r | reflexivity].
- inversion WF as [| ? ? WF0 WF']; subst. cbn [snd] in H0, WF0.
  rewrite descend_cons. cbn [flat_map fst snd].
  assert (Walked :
    mem c dirs = true ->
    exists st' delta,
      match walk a cwd fs gitignore_map child (rel ++ [c]) st with
      | Ok st' => descend (walk a cwd fs gitignore_map) dirs rel es st'
      | Raise e st' => Raise e st'
      end = Ok st'
      /\ trace st' = trace st ++ delta
      /\ Permutation (map snd delta)
           (seen a cwd fs gitignore_map child (rel ++ [c])
            ++ flat_map (fun e =>
                           match snd e with
                           | File _ => []
                           | c0 => if mem (fst e) dirs
                                   then seen a cwd fs gitignore_map c0 (rel ++ [fst e])
                                   else []
                           end) es)).
  { intros _.
    destruct (H0 (rel ++ [c]) st WF0) as (st1 & d1 & E1 & T1 & P1). rewrite E1.
    destruct (IH WF' st1) as (st2 & d2 & E2 & T2 & P2).
    exists st2, (d1 ++ d2). split; [exact E2 |].
    split; [now rewrite T2, T1, app_assoc |].
    rewrite map_app. now apply Permutation_app. }
  destruct child as [fd | es0 |]; [apply (IH WF') | |];
    (destruct (mem c dirs) eqn:M; [now apply Walked | apply (IH WF')]).
Qed.

Lemma walk_complete_all (n : node) : walk_complete a cwd fs gitignore_map n.
Proof.
induction n as [fd | | es IH] using node_ind'.
- intros rel st _. exists st, []. split; [reflexivity |].
  split; [now rewrite app_nil_r | reflexivity].
- intros rel st _. exists st, []. split; [reflexivity |].
  split; [now rewrite app_nil_r | reflexivity].
- intros rel st WF. apply well_formed_Dir in WF. destruct WF as [ND WF].
  rewrite walk_Dir. cbv zeta.
  set (dirs := filter (fun d => kept (stage rel d)) (subdirs es)).
  set (dp := pruning_entries a cwd fs gitignore_map rel (subdirs es)).
  destruct (process_files_paths rel (nondirs es) (record_all dp (visit rel st)))
    as (st_f & df & -> & Tf & Pf).
  destruct (descend_complete dirs rel es IH WF st_f) as (st_d & dd & Ed & Td & Pd).
  exists st_d, (dp ++ df ++ dd).
  split; [exact Ed |]. split.
  + rewrite Td, Tf. cbn [record_all visit trace]. now rewrite !app_assoc.
  + unfold dp. rewrite !map_app, Pf, Pd, seen_Dir.
    rewrite (Permutation_map snd
               (pruning_entries_perm a cwd fs gitignore_map rel (subdirs es)
                  (NoDup_subdirs es ND))).
    rewrite entry_of_paths, flat_map_subdirs, (map_nondirs (fun x => rel ++ [x])).
    rewrite flat_map_app_perm.
    rewrite (flat_map_app_perm
               (fun e => match snd e with
                         | File _ => []
                         | _ => if kept (stage rel (fst e)) then [] else [rel ++ [fst e]]
                         end)).
    rewrite (flat_map_ext_in _
               (fun e =>
                  match snd e with
                  | File _ => [rel ++ [fst e]]
                  | c => if kept (stage rel (fst e))
                         then seen a cwd fs gitignore_map c (rel ++ [fst e])
                         else [rel ++ [fst e]]
                  end)); [reflexivity |].
    intros [x c] Hin. cbn [fst snd].
    destruct c as [fd | es0 |]; [reflexivity | |].
    all: assert (Hx : In x (subdirs es))
        by (apply subdirs_In; eexists; split; [exact Hin | intros fd; discriminate]).
    all: unfold dirs; rewrite (mem_filter _ x _ Hx).
    all: destruct (kept (stage rel x)); cbn [app]; now rewrite ?app_nil_r.
Qed.

End Complete.

(** X14.  In a tree that lists every name once, a walk raises the
    counters once for every item it has to decide on, the files of the
    directories it comes down to and the subdirectories it removes there:
    the decisions it takes are for these items, one decision for each, and
    every counter rises by the number of decisions of its own kinds, so
    that the six counters together rise by the number of items. *)
Theorem counters_account_for_decisions (a : args) (cwd : list string)
        (fs : node) (gitignore_map : patterns_map) (top : node) (st : state) :
  well_formed top ->
  exists st' delta,
    walk a cwd fs gitignore_map top [] st = Ok st'
    /\ trace st' = trace st ++ delta
    /\ Permutation (map snd delta) (seen a cwd fs gitignore_map top [])
    /\ processed_count (counts st')
       = processed_count (counts st) + tally [Processed] (map fst delta)
    /\ skipped_excluded_dir (counts st')
       = skipped_excluded_dir (counts st)
         + tally [StandardExcludedDir; StandardExcludedFile] (map fst delta)
    /\ skipped_gitignore (counts st')
       = skipped_gitignore (counts st)
         + tally [GitignoredDir; GitignoredFile] (map fst delta)
    /\ skipped_read_error (counts st')
       = skipped_read_error (counts st)
         + tally [BinaryFile; UnreadableFile] (map fst delta)
    /\ skipped_output_file (counts st')
       = skipped_output_file (counts st) + tally [OutputFileItself] (map fst delta)
    /\ skipped_pattern_exclude (counts st')
       = skipped_pattern_exclude (counts st)
         + tally [PatternExcludedDir; PatternExcludedFile] (map fst delta)
    /\ total (counts st')
       = total (counts st) + List.length (seen a cwd fs gitignore_map top []).
Proof.
  intros WF.
  destruct (walk_summary_all a cwd fs gitignore_map top [] st)
    as (st' & delta & vis & E & (T & _ & C) & _).
  destruct (walk_complete_all a cwd fs gitignore_map top [] st WF)
    as (st2 & delta2 & E2 & T2 & P2).
  rewrite E in E2. injection E2 as <-.
  rewrite T in T2. apply app_inv_head in T2. subst delta2.
  exists st', delta. split; [exact E |]. split; [exact T |]. split; [exact P2 |].
  rewrite C. pose proof (bump_all_fields (map fst delta) (counts st)) as H.
  rewrite length_map in H.
  rewrite <- (Permutation_length P2), length_map. exact H.
Qed.

Lemma counters_account_for_decisions_witness :
  well_formed (Dir demo_entries)
  /\ exists st' delta,
       walk (demo_args true) ["w"; "proj"] demo_fs demo_map (Dir demo_entries) []
            init_state = Ok st'
       /\ trace st' = delta
       /\ Permutation (map snd delta)
            (seen (demo_args true) ["w"; "proj"] demo_fs demo_map (Dir demo_entries) [])
       /\ total (counts st') = 8.
Proof.
  assert (WF : well_formed (Dir demo_entries)) by (apply well_formedb_sound; reflexivity).
  split; [exact WF |].
  destruct (counters_account_for_decisions (demo_args true) ["w"; "proj"] demo_fs
              demo_map (Dir demo_entries) init_state WF)
    as (st' & delta & E & T & P & _ & _ & _ & _ & _ & _ & H).
  exists st', delta. split; [exact E |]. split; [exact T |]. split; [exact P |].
  exact H.
Defined.

(* ================================================================== *)
(** * A run of [main] that goes through *)
(* ================================================================== *)

Lemma find_set_same (x : string) (n : node) (es : list (string * node)) :
  find_entry x (set_entry x n es) = Some n.
Proof.
  induction es as [| [y m] es IH]; cbn [set_entry find_entry].
  - now rewrite String.eqb_refl.
  - destruct (String.eqb_spec x y) as [-> | N]; cbn [find_entry].
    + now rewrite String.eqb_refl.
    + destruct (String.eqb_spec x y); [contradiction | exact IH].
Qed.

Lemma find_set_other (x y : string) (n : node) (es : list (string * node)) :
  x <> y -> find_entry x (set_entry y n es) = find_entry x es.
Proof.
  intros N. induction es as [| [z m] es IH]; cbn [set_entry find_entry].
  - destruct (String.eqb_spec x y); [contradiction | reflexivity].
  - destruct (String.eqb_spec y z) as [-> | N']; cbn [find_entry].
    + destruct (String.eqb_spec x z); [contradiction | reflexivity].
    + destruct (String.eqb_spec x z); [reflexivity | exact IH].
Qed.

Lemma lookup_cons_Dir (y : string) (q : list string) (es : list (string * node)) :
  lookup (y :: q) (Dir es)
  = match find_entry y es with Some c => lookup q c | None => None end.
Proof. reflexivity. Qed.

Lemma lookup_in_file (q : list string) (d d0 : file_data) :
  lookup q (File d) = Some (File d0) -> q = [].
Proof. destruct q; [reflexivity | discriminate]. Qed.

Lemma write_file_inv (x : string) (p : list string) (d : file_data)
      (fs fs' : node) :
  write_file (x :: p) d fs = Some fs' ->
  exists es,
    fs = Dir es
    /\ ((p = [] /\ fs' = Dir (set_entry x (File d) es)
         /\ (find_entry x es = None \/ exists d0, find_entry x es = Some (File d0)))
        \/ (p <> [] /\ exists c c', find_entry x es = Some c
                                    /\ write_file p d c = Some c'
                                    /\ fs' = Dir (set_entry x c' es))).
Proof.
  cbn [write_file]. destruct fs as [fd | es |]; try discriminate.
  intros H. exists es. split; [reflexivity |].
  destruct p as [| y p].
  - left. destruct (find_entry x es) as [[d0 | |] |]; try discriminate H;
      injection H as <-; (split; [reflexivity |]); (split; [reflexivity |]).
    + right. now exists d0.
    + now left.
  - right. split; [discriminate |].
    destruct (find_entry x es) as [c |]; [| discriminate H].
    destruct (write_file (y :: p) d c) as [c' |] eqn:W; [| discriminate H].
    injection H as <-. now exists c, c'.
Qed.

Lemma lookup_write_same (p : list string) (d : file_data) :
  forall fs fs', write_file p d fs = Some fs' -> lookup p fs' = Some (File d).
Proof.
  induction p as [| x p IH]; intros fs fs' H; [discriminate H |].
  destruct (write_file_inv x p d fs fs' H)
    as (es & -> & [(-> & -> & _) | (N & c & c' & F & W & ->)]).
  - rewrite lookup_cons_Dir, find_set_same. reflexivity.
  - rewrite lookup_cons_Dir, find_set_same. now apply (IH c).
Qed.

Lemma lookup_write_other (p : list string) (d : file_data) :
  forall fs fs' q d0,
    write_file p d fs = Some fs' -> q <> p ->
    lookup q fs = Some (File d0) -> lookup q fs' = Some (File d0).
Proof.
  induction p as [| x p IH]; intros fs fs' q d0 H Nq L; [discriminate H |].
  destruct (write_file_inv x p d fs fs' H)
    as (es & -> & [(-> & -> & Hx) | (N & c & c' & F & W & ->)]).
  - destruct q as [| y q]; [discriminate L |].
    rewrite lookup_cons_Dir in *.
    destruct (String.eqb_spec y x) as [-> | Nyx].
    + destruct Hx as [Hx | [d1 Hx]]; rewrite Hx in L; [discriminate L |].
      apply lookup_in_file in L. subst q. now destruct Nq.
    + now rewrite find_set_other.
  - destruct q as [| y q]; [discriminate L |].
    rewrite lookup_cons_Dir in *.
    destruct (String.eqb_spec y x) as [-> | Nyx].
    + rewrite find_set_same. rewrite F in L.
      apply (IH c c' q d0 W); [| exact L]. intros ->. now destruct Nq.
    + now rewrite find_set_other.
Qed.

Lemma write_file_again (p : list string) (d d' : file_data) :
  forall fs fs', write_file p d fs = Some fs' ->
                 exists fs'', write_file p d' fs' = Some fs''.
Proof.
  induction p as [| x p IH]; intros fs fs' H; [discriminate H |].
  destruct (write_file_inv x p d fs fs' H)
    as (es & -> & [(-> & -> & _) | (N & c & c' & F & W & ->)]).
  - cbn [write_file]. rewrite find_set_same. eexists. reflexivity.
  - destruct (IH c c' W) as [c'' W'].
    destruct p as [| y p]; [contradiction |].
    cbn [write_file]. rewrite find_set_same.
    cbn [write_file] in W'. rewrite W'. eexists. reflexivity.
Qed.

Lemma lookup_mkdir_file (p : list string) :
  forall fs fs' q d0,
    mkdir_p p fs = Some fs' ->
    lookup q fs = Some (File d0) -> lookup q fs' = Some (File d0).
Proof.
  induction p as [| x p IH]; intros fs fs' q d0 H L.
  - cbn [mkdir_p] in H. destruct fs; try discriminate H; injection H as <-; exact L.
  - cbn [mkdir_p] in H. destruct fs as [fd | es |]; try discriminate H.
    destruct q as [| y q]; [discriminate L |].
    rewrite lookup_cons_Dir in L.
    destruct (find_entry x es) as [c |] eqn:F.
    + destruct (mkdir_p p c) as [c' |] eqn:M; [| discriminate H]. injection H as <-.
      rewrite lookup_cons_Dir.
      destruct (String.eqb_spec y x) as [-> | Nyx].
      * rewrite find_set_same. rewrite F in L. now apply (IH c c' q d0 M).
      * now rewrite find_set_other.
    + destruct (mkdir_p p (Dir [])) as [c' |] eqn:M; [| discriminate H]. injection H as <-.
      rewrite lookup_cons_Dir.
      destruct (String.eqb_spec y x) as [-> | Nyx].
      * rewrite F in L. discriminate L.
      * now rewrite find_set_other.
Qed.

(** X15.  When the source directory exists, the output path is free or
    [--force] is given, and the output file can be created, [main] goes
    through to its summary: the output file then holds exactly the text the
    loop wrote, which starts with the header naming the source directory,
    and every other file of the filesystem reads as it did before. *)
Theorem main_writes_only_the_output (a : args) (cwd : list string)
        (fs fs1 fs2 : node) :
  is_dir fs (source_dir a) = true ->
  exists_ fs (output_file a) && negb (force a) = false ->
  mkdir_p (Path.parent (output_file a)) fs = Some fs1 ->
  write_file (output_file a) (written "") fs1 = Some fs2 ->
  exists fs' st body,
    main a cwd fs = (fs', Finished, st)
    /\ read_text fs' (output_file a) = Some (md_file st)
    /\ md_file st = (header a cwd ++ body)%string
    /\ (forall q d, q <> output_file a ->
          lookup q fs = Some (File d) -> lookup q fs' = Some (File d)).
Proof.
  intros Hsrc Hout Hmk Hw. unfold main. rewrite Hsrc, Hout, Hmk, Hw. cbn [negb].
  set (top := match lookup (source_dir a) fs2 with Some n => n | None => Locked end).
  destruct (walk_provenance_all a cwd fs2 (get_gitignore_patterns fs1 (source_dir a))
              top [] (write (header a cwd) init_state))
    as (st & delta & body & -> & _ & M & _).
  destruct (write_file_again _ (written "") (written (md_file st)) _ _ Hw) as [fs3 Hw'].
  rewrite Hw'. exists fs3, st, body.
  split; [reflexivity |]. split; [| split].
  - unfold read_text. now rewrite (lookup_write_same _ _ _ _ Hw').
  - exact M.
  - intros q d Nq L.
    apply (lookup_write_other _ _ _ _ _ _ Hw' Nq).
    apply (lookup_write_other _ _ _ _ _ _ Hw Nq).
    now apply (lookup_mkdir_file _ _ _ _ _ Hmk).
Qed.

Lemma main_writes_only_the_output_witness :
  exists fs' st body,
    main (demo_args true) ["w"; "proj"] demo_fs = (fs', Finished, st)
    /\ read_text fs' (output_file (demo_args true)) = Some (md_file st)
    /\ md_file st = (header (demo_args true) ["w"; "proj"] ++ body)%string
    /\ (forall q d, q <> output_file (demo_args true) ->
          lookup q demo_fs = Some (File d) -> lookup q fs' = Some (File d)).
Proof.
  eapply (main_writes_only_the_output (demo_args true) ["w"; "proj"] demo_fs);
    reflexivity.
Defined.

(* ================================================================== *)
(** * The shape of the printed tree *)
(* ================================================================== *)

Lemma entry_ind' (P : tree_gitignore.entry -> Prop) :
  P tree_gitignore.Regular ->
  P tree_gitignore.Special ->
  (forall es, Forall (fun e => P (snd e)) es -> P (tree_gitignore.Listing es)) ->
  P tree_gitignore.Denied ->
  P tree_gitignore.Missing ->
  forall n, P n.
Proof.
  intros HR HS HL HD HM. fix IH 1. intros [| | es | |].
  - apply HR.
  - apply HS.
  - apply HL.
    exact ((fix all (l : list (string * tree_gitignore.entry))
              : Forall (fun e => P (snd e)) l :=
              match l with
              | [] => Forall_nil _
              | e :: l' => Forall_cons e (IH (snd e)) (all l')
              end) es).
  - apply HD.
  - apply HM.
Qed.

Module TreeShape.

Import tree_gitignore.

Lemma prefix_app (p s : string) : String.prefix p (p ++ s) = true.
Proof.
induction p as [| c p IH]; cbn; [now destruct s |].
destruct (Ascii.ascii_dec c c) as [_ | N]; [exact IH | now destruct N].
Qed.

Lemma prefix_app_l (p e : string) :
forall s, String.prefix (p ++ e) s = true -> String.prefix p s = true.
Proof.
induction p as [| c p IH]; intros s H; [now destruct s |].
destruct s as [| d s]; [discriminate H |].
cbn in *. destruct (Ascii.ascii_dec c d); [now apply IH | discriminate H].
Qed.

Lemma filter_insert (f : item -> bool) (x : item) (l : list item) :
StronglySorted key_le l ->
filter f (insert x l) = if f x then insert x (filter f l) else filter f l.
Proof.
induction 1 as [| y l Hl IH Hy]; cbn [insert filter].
- now destruct (f x).
- destruct (key_leb (key x) (key y)) eqn:E; cbn [filter].
  + destruct (f x) eqn:Fx; [| reflexivity].
    destruct (f y) eqn:Fy.
    * cbn [insert]. now rewrite E.
    * destruct (filter f l) as [| z r] eqn:F; [reflexivity |].
      cbn [insert].
      assert (Hz : key_le y z).
      { rewrite Forall_forall in Hy. apply Hy.
        assert (Hin : In z (filter f l)) by (rewrite F; now left).
        apply filter_In in Hin. tauto. }
      pose proof (TreeOrder.key_le_trans x y z E Hz) as T.
      unfold key_le in T. now rewrite T.
  + rewrite IH.
    destruct (f y) eqn:Fy, (f x) eqn:Fx; cbn [insert]; try rewrite E; reflexivity.
Qed.

Lemma filter_sorted_comm (f : item -> bool) (l : list item) :
filter f (sorted l) = sorted (filter f l).
Proof.
induction l as [| x l IH]; [reflexivity |].
cbn [sorted fold_right filter].
change (fold_right insert [] l) with (sorted l).
rewrite filter_insert by apply TreeOrder.sorted_sorted.
rewrite IH. now destruct (f x).
Qed.

Lemma filter_map_comm {A B : Type} (f : B -> bool) (h : A -> B) (l : list A) :
filter f (map h l) = map h (filter (fun a => f (h a)) l).
Proof.
induction l as [| a l IH]; [reflexivity |].
cbn [map filter]. rewrite IH. now destruct (f (h a)).
Qed.

Section Shape.

Variable match_file : string -> bool.
Variable gitignore_root : list string.

Lemma filtered_items_of (rel : list string) (es : list (string * entry)) :
filtered_items match_file rel (items_of match_file gitignore_root es)
= sorted (items_of match_file gitignore_root
            (filter (fun e => negb (match_file (Path.as_posix (rel ++ [fst e]))))
                    es)).
Proof.
unfold filtered_items. rewrite filter_sorted_comm. f_equal.
unfold items_of. now rewrite filter_map_comm.
Qed.

End Shape.

End TreeShape.

(** X16.  Every line [build_tree] prints, at any depth, starts with the
    [prefix] the call was given, so that the listing of a directory stays
    inside the indentation of its parent; with one exception: the message
    for a directory that is gone when it is listed has no prefix at all,
    however deep the directory lies. *)
Theorem build_tree_lines_keep_the_prefix (match_file : string -> bool)
        (gitignore_root : list string) (n : tree_gitignore.entry) :
  forall (name : string) (rel : list string) (prefix line : string),
    In line (tree_gitignore.build_tree match_file gitignore_root name n rel prefix) ->
    Py.startswith prefix line = true
    \/ exists s,
         at_path s n tree_gitignore.Missing
         /\ line = ("Error: Directory not found: "
                    ++ tree_gitignore.str (gitignore_root ++ rel ++ s))%string.
Proof.
  unfold Py.startswith.
  induction n as [| | es IH | |] using entry_ind'; intros name rel prefix line H.
  - destruct H.
  - destruct H.
  - rewrite TreeOrder.build_tree_Listing in H.
    unfold tree_gitignore.print_level in H.
    apply in_flat_map in H. destruct H as ([pointer x] & Hpx & Hl).
    apply in_combine_r in Hpx. unfold tree_gitignore.filtered_items in Hpx.
    apply filter_In in Hpx. destruct Hpx as [Hx _].
    apply (Permutation_in _ (TreeOrder.sorted_perm _)) in Hx.
    unfold tree_gitignore.items_of in Hx. apply in_map_iff in Hx.
    destruct Hx as ([nm c] & <- & Hin).
    cbn [tree_gitignore.print_item tree_gitignore.item_name tree_gitignore.is_dir_
         tree_gitignore.subtree fst snd In] in Hl.
    destruct Hl as [<- | Hl]; [left; apply TreeShape.prefix_app |].
    destruct (tree_gitignore.entry_is_dir c); [| destruct Hl].
    rewrite Forall_forall in IH. specialize (IH (nm, c) Hin). cbn [snd] in IH.
    apply IH in Hl. destruct Hl as [Hl | (s & Hs & ->)].
    + left. now apply TreeShape.prefix_app_l in Hl.
    + right. exists (nm :: s). split; [now apply (at_down nm c es s) |].
      now rewrite <- app_assoc.
  - cbn [tree_gitignore.build_tree In] in H. destruct H as [<- | []].
    left. apply TreeShape.prefix_app.
  - cbn [tree_gitignore.build_tree In] in H. destruct H as [<- | []].
    right. exists []. split; [constructor | now rewrite app_nil_r].
Qed.

Lemma build_tree_lines_keep_the_prefix_witness :
  In ">    └── b"%string
     (tree_gitignore.build_tree (fun _ => false) ["w"] "top"
        (tree_gitignore.Listing
           [("a", tree_gitignore.Listing [("b", tree_gitignore.Regular)])]) [] ">")
  /\ (Py.startswith ">" ">    └── b" = true
      \/ exists s,
           at_path s (tree_gitignore.Listing
                        [("a", tree_gitignore.Listing [("b", tree_gitignore.Regular)])])
                   tree_gitignore.Missing
           /\ ">    └── b"%string
              = ("Error: Directory not found: "
                 ++ tree_gitignore.str (["w"] ++ [] ++ s))%string).
Proof.
  assert (H : In ">    └── b"%string
                (tree_gitignore.build_tree (fun _ => false) ["w"] "top"
                   (tree_gitignore.Listing
                      [("a", tree_gitignore.Listing [("b", tree_gitignore.Regular)])])
                   [] ">"))
    by (right; left; reflexivity).
  split; [exact H |].
  exact (build_tree_lines_keep_the_prefix _ _ _ _ _ _ _ H).
Defined.

Example missing_directory_line :
  tree_gitignore.build_tree (fun _ => false) ["w"] "top"
    (tree_gitignore.Listing
       [("a", tree_gitignore.Listing [("b", tree_gitignore.Missing)])]) [] ""
  = ["└── a/"; "    └── b/"; "Error: Directory not found: /w/a/b"].
Proof. reflexivity. Qed.

(** X17.  What [build_tree] prints for a directory depends only on the
    entries the ignore rules let through: two directories whose entries
    differ only in ignored ones, whatever those contain, print the same
    lines. *)
Theorem ignored_entries_do_not_show (match_file : string -> bool)
        (gitignore_root : list string) (name name' : string)
        (es es' : list (string * tree_gitignore.entry))
        (rel : list string) (prefix : string) :
  let shown := fun e : string * tree_gitignore.entry =>
                 negb (match_file (Path.as_posix (rel ++ [fst e]))) in
  filter shown es = filter shown es' ->
  tree_gitignore.build_tree match_file gitignore_root name
                            (tree_gitignore.Listing es) rel prefix
  = tree_gitignore.build_tree match_file gitignore_root name'
                              (tree_gitignore.Listing es') rel prefix.
Proof.
  intros shown H. rewrite !TreeOrder.build_tree_Listing.
  unfold tree_gitignore.print_level.
  rewrite !TreeShape.filtered_items_of. fold shown. now rewrite H.
Qed.

Lemma ignored_entries_do_not_show_witness :
  tree_gitignore.build_tree (String.eqb "node_modules") ["w"] "top"
    (tree_gitignore.Listing
       [("node_modules", tree_gitignore.Listing [("x.js", tree_gitignore.Regular)]);
        ("a.py", tree_gitignore.Regular)])
    [] ""
  = tree_gitignore.build_tree (String.eqb "node_modules") ["w"] "top"
      (tree_gitignore.Listing [("a.py", tree_gitignore.Regular)]) [] "".
Proof.
  apply (ignored_entries_do_not_show (String.eqb "node_modules") ["w"] "top" "top"
           [("node_modules", tree_gitignore.Listing [("x.js", tree_gitignore.Regular)]);
            ("a.py", tree_gitignore.Regular)]
           [("a.py", tree_gitignore.Regular)] [] "").
  reflexivity.
Defined.

